(** * Counting-Primes: the worker scheduling and aggregation loop of prime.py

    A shallow embedding of [src/prime.py] and the proofs of its
    specification.  Python integers are [Z]; Python floats are the binary64
    numbers of the standard library's [SpecFloat] ([prec = 53],
    [emax = 1024]); exceptions are [None] in [option]; the wall clock, the
    shutdown flag and the queue are explicit state, and a signal that reaches
    a worker process is an input of the process. *)

From Stdlib Require Import String.
From Stdlib Require Import ZArith Znumtheory List Lia Bool Permutation Sorted.
From Stdlib Require Import SpecFloat.
Import ListNotations.
Local Open Scope Z_scope.

(* ================================================================== *)
(** * Part I: definitions *)
(* ================================================================== *)

(** ** Python's [range(start, stop, step)] for a positive step *)

Fixpoint range_up (k : nat) (start step : Z) : list Z :=
  match k with
  | O => []
  | S k' => start :: range_up k' (start + step) step
  end.

Definition range (start stop step : Z) : list Z :=
  range_up (Z.to_nat ((stop - start + step - 1) / step)) start step.

(** ** PrimalityOracle: [is_prime], prime.py lines 13-22 *)

(** The [for i in range(3, limit + 1, 2)] loop with its early [return False]. *)
Fixpoint trial_division (num : Z) (divisors : list Z) : bool :=
  match divisors with
  | [] => true
  | i :: rest => if num mod i =? 0 then false else trial_division num rest
  end.

Definition is_prime (num : Z) : bool :=
  if num <? 2 then false
  else if num =? 2 then true
  else if num mod 2 =? 0 then false
  else
    let limit := Z.sqrt num in
    trial_division num (range 3 (limit + 1) 2).

(** ** Binary64 arithmetic as Python uses it *)

Definition float := spec_float.

(** [int.__float__]: the nearest binary64, ties to even; [None] is Python's
    [OverflowError: int too large to convert to float]. *)
Definition float_of_int (n : Z) : option float :=
  match binary_normalize 53 1024 n 0 false with
  | S754_infinity _ => None
  | f => Some f
  end.

Definition float_mul : float -> float -> float := SFmul 53 1024.

Definition float_sub : float -> float -> float := SFsub 53 1024.

(** [math.floor]: exact on a finite float; it raises on an infinity or a NaN. *)
Definition math_floor (f : float) : option Z :=
  match f with
  | S754_zero _ => Some 0
  | S754_finite s m e =>
      let sm := if s then Z.neg m else Z.pos m in
      Some (if 0 <=? e then sm * 2 ^ e else sm / 2 ^ (- e))
  | S754_infinity _ | S754_nan => None
  end.

(** The literal [0.00000005]: the binary64 nearest to 5e-8. *)
Definition growth_factor : float := S754_finite false 7555786372591432 (-77).

(** The literal [0.2], the slice duration in seconds. *)
Definition slice_seconds : float := S754_finite false 7205759403792794 (-55).

(** The literal [1.0], the velocity cadence in seconds. *)
Definition one_second : float := S754_finite false 4503599627370496 (-52).

(** ** SequenceGenerator: prime.py lines 47-48 *)

(** [growth = math.floor(current_num * 0.00000005)] *)
Definition growth (current_num : Z) : option Z :=
  match float_of_int current_num with
  | Some f => math_floor (float_mul f growth_factor)
  | None => None
  end.

(** [current_num += (stride + growth)] *)
Definition advance (stride current_num : Z) : option Z :=
  match growth current_num with
  | Some g => Some (current_num + (stride + g))
  | None => None
  end.

(** The candidate a worker tests after [n] advances of its cursor. *)
Fixpoint nth_candidate (stride current_num : Z) (n : nat) : option Z :=
  match n with
  | O => Some current_num
  | S n' =>
      match advance stride current_num with
      | Some next => nth_candidate stride next n'
      | None => None
      end
  end.

(** The first [k] candidates from [current_num], with the cursor after them. *)
Fixpoint candidates (stride current_num : Z) (k : nat) : option (list Z * Z) :=
  match k with
  | O => Some ([], current_num)
  | S k' =>
      match advance stride current_num with
      | Some next =>
          match candidates stride next k' with
          | Some (l, c) => Some (current_num :: l, c)
          | None => None
          end
      | None => None
      end
  end.

(** ** WorkerLoop: [worker_process], prime.py lines 24-56 *)

Module Report.
Record t : Set := mk { id : Z; count : Z; highest : Z }.
End Report.

(** How a loop that reads the clock or the flag ends: it finished, an
    exception propagated, or the recorded readings ran out while it was
    still running. *)
Inductive outcome (A : Type) : Type :=
| Done (a : A)
| Raised
| Starved.
Arguments Done {A} a.
Arguments Raised {A}.
Arguments Starved {A}.

Record slice_state : Set :=
  { current_num : Z; count : Z; max_found : Z }.

(** The body of [while (time.time() - start_time) < 0.2], lines 41-48. *)
Definition test_candidate (st : slice_state) : slice_state :=
  if is_prime (current_num st)
  then {| current_num := current_num st;
          count := count st + 1;
          max_found := current_num st |}
  else st.

(** The inner loop; [clock] holds the successive readings of [time.time()]. *)
Fixpoint time_slice (stride : Z) (start_time : float) (clock : list float)
    (st : slice_state) : outcome (slice_state * list float) :=
  match clock with
  | [] => Starved
  | now :: clock' =>
      if SFltb (float_sub now start_time) slice_seconds then
        let st1 := test_candidate st in
        match advance stride (current_num st1) with
        | Some next =>
            time_slice stride start_time clock'
              {| current_num := next;
                 count := count st1;
                 max_found := max_found st1 |}
        | None => Raised
        end
      else Done (st, clock')
  end.

(** Lines 51-56: the report of a slice, if one is sent. *)
Definition slice_report (worker_id : Z) (st : slice_state) : option Report.t :=
  if (0 <? count st) || (0 <? max_found st)
  then Some (Report.mk worker_id (count st) (max_found st))
  else None.

Definition put (queue : list Report.t) (r : option Report.t) : list Report.t :=
  match r with
  | Some data => queue ++ [data]
  | None => queue
  end.

Inductive exit : Set :=
| Returned   (* the [while not stop_event.is_set()] loop ended *)
| Crashed    (* an exception left [worker_process] *)
| Running.   (* the recorded readings ran out: the worker is still running *)

(** The outer loop; [flags] holds the successive readings of
    [stop_event.is_set()], and the result is how the worker ended and what it
    put on the queue.  This is the code of [worker_process] alone; what
    reaches its process from outside comes with [worker_under_main]. *)
Fixpoint worker_loop (worker_id stride : Z) (flags : list bool)
    (clock : list float) (current : Z) (queue : list Report.t)
    : exit * list Report.t :=
  match flags with
  | [] => (Running, queue)
  | true :: _ => (Returned, queue)
  | false :: flags' =>
      match clock with
      | [] => (Running, queue)
      | start_time :: clock1 =>
          match time_slice stride start_time clock1
                  {| current_num := current; count := 0; max_found := 0 |} with
          | Done (st, clock2) =>
              worker_loop worker_id stride flags' clock2 (current_num st)
                (put queue (slice_report worker_id st))
          | Raised => (Crashed, queue)
          | Starved => (Running, queue)
          end
      end
  end.

Definition worker_process (worker_id stride : Z) (flags : list bool)
    (clock : list float) : exit * list Report.t :=
  let current_num := 100 + worker_id in
  worker_loop worker_id stride flags clock current_num [].

(** What the reports of a worker look like: its id, a positive count and a
    prime as the highest value. *)
Definition valid_report (worker_id : Z) (r : Report.t) : Prop :=
  Report.id r = worker_id /\ 0 < Report.count r /\
  is_prime (Report.highest r) = true.

(** ** Completed slices

    The readings of the clock that one completed slice makes: the one kept
    as [start_time] (line 36), those of the loop test that are less than
    0.2 s later (line 40), one candidate being tested after each, and the
    first one that is not, which ends the slice. *)
Record slice_readings : Set :=
  { at_start : float; within : list float; past : float }.

Definition slice_clock (s : slice_readings) : list float :=
  at_start s :: within s ++ [past s].

Definition completed (s : slice_readings) : Prop :=
  Forall (fun now => SFltb (float_sub now (at_start s)) slice_seconds = true)
    (within s) /\
  SFltb (float_sub (past s) (at_start s)) slice_seconds = false.

(** Readings on which the outer loop completes no slice: the flag is read as
    set, or the readings end, at the boundary or before the clock of the
    slice begun has passed 0.2 s. *)
Definition completes_no_slice (flags : list bool) (clock : list float) : Prop :=
  match flags, clock with
  | false :: _, start_time :: clock1 =>
      Forall (fun now => SFltb (float_sub now start_time) slice_seconds = true)
        clock1
  | _, _ => True
  end.

(** Following the spec's words (4.3: if prime, increment a local count and
    set the local highest to that candidate; at slice end, if the local
    count is nonzero, send one BatchReport, otherwise send nothing): what a
    slice that tested the candidates [tested] sends.  It is what [put] and
    [slice_report] are compared with. *)
Definition BatchReport_spec (worker_id : Z) (tested : list Z) : list Report.t :=
  let primes := filter is_prime tested in
  if Z.of_nat (length primes) =? 0 then []
  else [Report.mk worker_id (Z.of_nat (length primes)) (last primes 0)].

(** ** Lifecycle: a worker process under [main], prime.py lines 172-179

    [worker_process] handles no exception and no signal, so the process
    that runs it also ends by what reaches it from outside.  Two things do:
    the Ctrl-C that stops the program goes to every process of the terminal
    and raises [KeyboardInterrupt] in the worker as it does in [main]
    (line 175); and [main] calls [p.terminate()] on every worker
    (lines 178-179), which sends it SIGTERM, right after [stop_event.set()]
    (line 177). *)
Inductive signal : Set :=
| SIGINT     (* Ctrl-C: [KeyboardInterrupt] is raised in the worker *)
| SIGTERM.   (* [p.terminate()] *)

(** How a worker process stands in the end: as [worker_process] left it
    ([Running]: it has not ended), or ended by a signal. *)
Inductive process_exit : Set :=
| ByItself (status : exit)
| BySignal (s : signal).

(** A signal ends a worker that is still running, wherever it stands, and
    what it has put on the queue stays; a worker that has left
    [worker_process] is past it. *)
Definition deliver (outside : option signal) (run : exit * list Report.t)
    : process_exit * list Report.t :=
  match run, outside with
  | (Running, queue), Some s => (BySignal s, queue)
  | (status, queue), _ => (ByItself status, queue)
  end.

(** The worker process: [flags] and [clock] are the readings it makes
    before [outside], if anything, reaches it. *)
Definition worker_under_main (worker_id stride : Z) (flags : list bool)
    (clock : list float) (outside : option signal)
    : process_exit * list Report.t :=
  deliver outside (worker_process worker_id stride flags clock).

(** ** Aggregator: the loop of [main], prime.py lines 133-170 *)

Module Stats.
Record t : Set :=
  mk { total : Z; speed : Z; highest : Z; threads : Z; running : bool }.
End Stats.

Definition initial_stats (CORE_COUNT : Z) : Stats.t :=
  Stats.mk 0 0 0 CORE_COUNT true.

(** Lines 160-163: one report folded into the statistics. *)
Definition absorb (stats : Stats.t) (data : Report.t) : Stats.t :=
  let total := Stats.total stats + Report.count data in
  Stats.mk total (Stats.speed stats)
    (if Report.highest data >? Stats.highest stats
     then Report.highest data else Stats.highest stats)
    (Stats.threads stats) (Stats.running stats).

(** Lines 159-163: [while not queue.empty()], on the reports it gets. *)
Definition drain (stats : Stats.t) (pending : list Report.t) : Stats.t :=
  fold_left absorb pending stats.

Record main_state : Set :=
  { stats : Stats.t; last_check_time : float; last_total_primes : Z }.

(** [now - last_check_time >= 1.0] *)
Definition boundary (st : main_state) (now : float) : bool :=
  SFleb one_second (float_sub now (last_check_time st)).

(** Lines 159-170: one iteration of the [while True] loop of [main]. *)
Definition tick (st : main_state) (pending : list Report.t) (now : float)
    : main_state :=
  let stats1 := drain (stats st) pending in
  if boundary st now then
    {| stats := Stats.mk (Stats.total stats1)
                  (Stats.total stats1 - last_total_primes st)
                  (Stats.highest stats1) (Stats.threads stats1)
                  (Stats.running stats1);
       last_check_time := now;
       last_total_primes := Stats.total stats1 |}
  else
    {| stats := stats1;
       last_check_time := last_check_time st;
       last_total_primes := last_total_primes st |}.

(** ** Rounding in closed form, for the proofs about [growth] *)

(** [x / 2^n] rounded to the nearest integer, ties to even. *)
Definition rne (x n : Z) : Z :=
  let q := x / 2 ^ n in
  if Z.odd (x / 2 ^ (n - 1)) && (negb (x mod 2 ^ (n - 1) =? 0) || Z.odd q)
  then q + 1 else q.

(** [x * 2^e] rounded to 53 significant bits, as mantissa and exponent. *)
Definition rnd53 (x e : Z) : Z * Z :=
  let n := Zdigits2 x - 53 in
  if n <=? 0 then (x, e)
  else
    let a := rne x n in
    if a =? 2 ^ 53 then (2 ^ 52, e + n + 1) else (a, e + n).

Definition pack (me : Z * Z) : spec_float :=
  match fst me with
  | Zpos m => if snd me <=? 971 then S754_finite false m (snd me) else S754_infinity false
  | Z0 => S754_zero false
  | Zneg _ => S754_nan
  end.

Definition canon (me : Z * Z) : Prop := 2 ^ 52 <= fst me < 2 ^ 53.

(** The order of the canonical pairs, which is the order of their values. *)
Definition pair_le (a b : Z * Z) : Prop :=
  snd a < snd b \/ (snd a = snd b /\ fst a <= fst b).

Definition floor_pair (me : Z * Z) : Z :=
  if 0 <=? snd me then fst me * 2 ^ snd me else fst me / 2 ^ (- snd me).

(** [float(v)] and [float(v) * 0.00000005] as pairs. *)
Definition fpair (v : Z) : Z * Z := rnd53 (v * 2 ^ 53) (-53).

Definition gpair (v : Z) : Z * Z :=
  rnd53 (fst (fpair v) * 7555786372591432) (snd (fpair v) - 77).

(** ** The rest of the program *)

(** The number of times the loop body of [is_prime] runs: one evaluation of
    [num % i == 0] per iteration, up to the first divisor. *)
Fixpoint trial_division_steps (num : Z) (divisors : list Z) : nat :=
  match divisors with
  | [] => O
  | i :: rest =>
      S (if num mod i =? 0 then O else trial_division_steps num rest)
  end.

Definition is_prime_steps (num : Z) : nat :=
  if num <? 2 then O
  else if num =? 2 then O
  else if num mod 2 =? 0 then O
  else
    let limit := Z.sqrt num in
    trial_division_steps num (range 3 (limit + 1) 2).

(** Lines 145-151 of [main]: the [(worker_id, stride)] arguments of the
    processes started by [for i in range(CORE_COUNT)]. *)
Definition start_workers (CORE_COUNT : Z) : list (Z * Z) :=
  map (fun i => (i, CORE_COUNT)) (range 0 CORE_COUNT 1).

(** The pool at work: every started worker with its own readings of the
    flag and of the clock. *)
Definition run_pool (CORE_COUNT : Z) (readings : Z -> list bool * list float)
    : list (exit * list Report.t) :=
  map (fun w => worker_process (fst w) (snd w)
                  (fst (readings (fst w))) (snd (readings (fst w))))
      (start_workers CORE_COUNT).

(** The queue a started worker leaves behind. *)
Definition queue_of (readings : Z -> list bool * list float) (w : Z * Z)
    : list Report.t :=
  snd (worker_process (fst w) (snd w)
         (fst (readings (fst w))) (snd (readings (fst w)))).

(** Lines 133-142 of [main]: the state before the first iteration. *)
Definition initial_state (CORE_COUNT : Z) (start : float) : main_state :=
  {| stats := initial_stats CORE_COUNT;
     last_check_time := start;
     last_total_primes := 0 |}.

(** Lines 157-173 of [main]: a run of iterations of [while True], each with
    the reports it finds on the queue and its reading of the clock. *)
Definition run_ticks (st : main_state) (ticks : list (list Report.t * float))
    : main_state :=
  fold_left (fun s t => tick s (fst t) (snd t)) ticks st.

(** What every iteration of the loop of [main] keeps. *)
Definition loop_invariant (CORE_COUNT : Z) (st : main_state) : Prop :=
  Stats.threads (stats st) = CORE_COUNT /\
  Stats.running (stats st) = true /\
  0 <= last_total_primes st <= Stats.total (stats st) /\
  0 <= Stats.speed (stats st) <= Stats.total (stats st).

Definition sum_counts (reports : list Report.t) : Z :=
  fold_right (fun r acc => Report.count r + acc) 0 reports.

(** ** [generate_layout], prime.py lines 69-70 and 107-115 *)

(** [int / int]: the quotient correctly rounded to binary64; [None] is a
    [ZeroDivisionError] or an [OverflowError]. *)
Definition int_truediv (a b : Z) : option float :=
  match a, b with
  | _, Z0 => None
  | Z0, _ => Some (S754_zero (b <? 0))
  | _, _ =>
      let '(q, e, l) := SFdiv_core_binary 53 1024 (Z.abs a) 0 (Z.abs b) 0 in
      match binary_round_aux 53 1024 (xorb (a <? 0) (b <? 0)) q e l with
      | S754_infinity _ => None
      | f => Some f
      end
  end.

(** [int(x)] on a float: truncation towards zero; it raises on an infinity
    or a NaN. *)
Definition int_of_float (f : float) : option Z :=
  match f with
  | S754_zero _ => Some 0
  | S754_finite s m e =>
      let a := if 0 <=? e then Z.pos m * 2 ^ e else Z.pos m / 2 ^ (- e) in
      Some (if s then - a else a)
  | S754_infinity _ | S754_nan => None
  end.

Definition max_visual_len : Z := 30.

(** [min(int((stats['speed'] / 5000) * max_visual_len), max_visual_len)
     if stats['speed'] else 0] *)
Definition speed_bar_len (speed : Z) : option Z :=
  if speed =? 0 then Some 0
  else
    match int_truediv speed 5000, float_of_int max_visual_len with
    | Some ratio, Some len =>
        match int_of_float (float_mul ratio len) with
        | Some cells => Some (Z.min cells max_visual_len)
        | None => None
        end
    | _, _ => None
    end.

(** [s * n] on strings, here lists of code points: empty for [n <= 0]. *)
Definition str_mul (s : list Z) (n : Z) : list Z :=
  concat (repeat s (Z.to_nat n)).

(** The block character of the bars, U+2588. *)
Definition full_block : list Z := [9608].

(** The two bars of the right column: [speed_vis] and the growth bar
    ['█' * (speed_bar_len // 2)]. *)
Definition speed_bars (speed : Z) : option (list Z * list Z) :=
  match speed_bar_len speed with
  | Some len => Some (str_mul full_block len, str_mul full_block (len / 2))
  | None => None
  end.

(** The bar length checked against [30 * speed / 5000] for the speeds 1 to
    [k]: the computation behind the proof for the speeds below 5000. *)
Fixpoint bar_exact_upto (k : nat) : bool :=
  match k with
  | O => true
  | S k' =>
      match speed_bar_len (Z.of_nat k) with
      | Some len => (len =? 30 * Z.of_nat k / 5000) && bar_exact_upto k'
      | None => false
      end
  end.

(** Lines 69-70: the style and the text of the status in the header. *)
Definition status_style (running : bool) : String.string :=
  if running then "bold green"%string else "bold red"%string.

Definition status_text (running : bool) : String.string :=
  if running then "RUNNING"%string else "PAUSED"%string.

(* ================================================================== *)
(** * Part II: theorems *)
(* ================================================================== *)

Section PrimalityOracle.

Lemma range_up_In (k : nat) (start step x : Z) :
  In x (range_up k start step) <->
  exists i, (i < k)%nat /\ x = start + Z.of_nat i * step.
Proof.
  revert start; induction k as [|k IH]; intros start; simpl.
  - split; [tauto | intros (i & Hi & _); lia].
  - rewrite IH; split.
    + intros [<- | (i & Hi & ->)].
      * exists 0%nat; split; lia.
      * exists (S i); split; lia.
    + intros (i & Hi & ->); destruct i as [|i].
      * left; lia.
      * right; exists i; split; lia.
Qed.

(** The odd trial divisors: [range(3, limit + 1, 2)] holds exactly the odd
    integers of [3, limit]. *)
Lemma range_odd_In (limit x : Z) :
  In x (range 3 (limit + 1) 2) <-> 3 <= x <= limit /\ Z.odd x = true.
Proof.
  unfold range; rewrite range_up_In.
  replace (limit + 1 - 3 + 2 - 1) with (limit - 1) by lia.
  split.
  - intros (i & Hi & ->).
    assert (0 < (limit - 1) / 2) by lia.
    assert (Z.of_nat i < (limit - 1) / 2) by lia.
    pose proof (Z.mul_div_le (limit - 1) 2 ltac:(lia)).
    split; [lia|].
    replace (3 + Z.of_nat i * 2) with (1 + 2 * (Z.of_nat i + 1)) by lia.
    rewrite Z.odd_add_mul_2; reflexivity.
  - intros [Hx Hodd].
    rewrite Zodd_bool_iff in Hodd. destruct (Zodd_ex _ Hodd) as [m Hm].
    exists (Z.to_nat (m - 1)); split; [|lia].
    assert (m <= (limit - 1) / 2) by (apply Z.div_le_lower_bound; lia).
    lia.
Qed.

Lemma trial_division_false (num : Z) (l : list Z) :
  trial_division num l = false <-> exists i, In i l /\ num mod i = 0.
Proof.
  induction l as [|i l IH]; simpl.
  - split; [discriminate | intros (i & [] & _)].
  - destruct (Z.eqb_spec (num mod i) 0) as [E|E].
    + split; [intros _; exists i; auto | reflexivity].
    + rewrite IH; split.
      * intros (j & Hj & Hm); exists j; auto.
      * intros (j & [<- | Hj] & Hm); [contradiction | exists j; auto].
Qed.

(** A composite number has a divisor no larger than its square root. *)
Lemma small_divisor (n d : Z) :
  1 < d < n -> (d | n) -> exists d', 1 < d' <= Z.sqrt n /\ (d' | n).
Proof.
  intros Hd [q Hq].
  assert (1 < q) by nia.
  destruct (Z_le_gt_dec d q) as [Hle | Hgt].
  - exists d; split; [split; [lia|] | exists q; exact Hq].
    apply Z.sqrt_le_square; nia.
  - exists q; split; [split; [lia|] | exists d; lia].
    apply Z.sqrt_le_square; nia.
Qed.

Lemma odd_divisor (n d : Z) : Z.odd n = true -> (d | n) -> Z.odd d = true.
Proof.
  intros Hn [q ->]. rewrite Z.odd_mul in Hn.
  apply andb_true_iff in Hn; tauto.
Qed.

Lemma mod2_odd (n : Z) : (n mod 2 =? 0) = negb (Z.odd n).
Proof.
  rewrite Zmod_odd. destruct (Z.odd n); reflexivity.
Qed.

(** What [is_prime] computes on an odd number above 2. *)
Lemma is_prime_odd (n : Z) :
  2 < n -> Z.odd n = true ->
  is_prime n = trial_division n (range 3 (Z.sqrt n + 1) 2).
Proof.
  intros Hn Hodd. unfold is_prime.
  destruct (Z.ltb_spec n 2); [lia|].
  destruct (Z.eqb_spec n 2); [lia|].
  rewrite mod2_odd, Hodd; reflexivity.
Qed.

Lemma is_prime_odd_false (n : Z) :
  2 < n -> Z.odd n = true ->
  (is_prime n = false <->
   exists d, 3 <= d <= Z.sqrt n /\ Z.odd d = true /\ (d | n)).
Proof.
  intros Hn Hodd. rewrite is_prime_odd, trial_division_false by assumption.
  split.
  - intros (d & Hin & Hm). apply range_odd_In in Hin. exists d.
    repeat split; try tauto; try lia.
    apply Z.mod_divide; [lia | exact Hm].
  - intros (d & Hr & Hd & Hdiv). exists d; split.
    + apply range_odd_In; tauto.
    + apply Z.mod_divide; [lia | exact Hdiv].
Qed.

Lemma is_prime_sound (n : Z) : is_prime n = true -> Z.prime n.
Proof.
  intros Hp. unfold is_prime in Hp.
  destruct (Z.ltb_spec n 2) as [|Hge]; [discriminate|].
  destruct (Z.eqb_spec n 2) as [He|Hne]; [subst n; exact Z.prime_2|].
  rewrite mod2_odd in Hp.
  destruct (Z.odd n) eqn:Hodd; [simpl in Hp | discriminate].
  split; [lia|].
  intros d Hd Hdiv.
  destruct (small_divisor n d Hd Hdiv) as (d' & Hd' & Hdiv').
  pose proof (odd_divisor _ _ Hodd Hdiv') as Hoddd'.
  assert (d' <> 2) by (intros ->; discriminate).
  assert (is_prime n = false) as Hf.
  { apply is_prime_odd_false; [lia | assumption |].
    exists d'; repeat split; try assumption; lia. }
  rewrite is_prime_odd in Hf by (assumption || lia). congruence.
Qed.

Lemma is_prime_complete (n : Z) : Z.prime n -> is_prime n = true.
Proof.
  intros Hp. pose proof (Z.prime_ge_2 _ Hp) as Hge.
  destruct (Z.eq_dec n 2) as [He|Hne]; [subst n; reflexivity|].
  destruct (Z.odd n) eqn:Hodd.
  - destruct (is_prime n) eqn:E; [reflexivity|].
    apply is_prime_odd_false in E; [|lia|assumption].
    destruct E as (d & Hr & _ & Hdiv).
    destruct Hp as [_ Hp].
    exfalso; apply (Hp d); [|exact Hdiv].
    pose proof (Z.sqrt_lt_lin n ltac:(lia)). lia.
  - destruct Hp as [_ Hp].
    exfalso; apply (Hp 2); [lia|].
    apply Z.mod_divide; [lia|].
    rewrite Zmod_odd, Hodd; reflexivity.
Qed.

End PrimalityOracle.

(** C1: [is_prime n] is true exactly when [n] is prime; it is false below 2,
    true at 2, false on the even numbers above 2, and on an odd number above
    2 it is false exactly when an odd integer of [3, floor(sqrt n)] divides
    it. *)
Theorem is_prime_correct (n : Z) :
  (is_prime n = true <-> Z.prime n) /\
  (n < 2 -> is_prime n = false) /\
  (n = 2 -> is_prime n = true) /\
  (2 < n -> Z.even n = true -> is_prime n = false) /\
  (2 < n -> Z.odd n = true ->
   (is_prime n = false <->
    exists d, 3 <= d <= Z.sqrt n /\ Z.odd d = true /\ (d | n)) /\
   (is_prime n = true <->
    forall d, 3 <= d <= Z.sqrt n -> Z.odd d = true -> ~ (d | n))).
Proof.
  split; [split; [apply is_prime_sound | apply is_prime_complete]|].
  split; [intros H; unfold is_prime; destruct (Z.ltb_spec n 2); [reflexivity | lia]|].
  split; [intros ->; reflexivity|].
  split.
  - intros Hn He. unfold is_prime.
    destruct (Z.ltb_spec n 2); [reflexivity|].
    destruct (Z.eqb_spec n 2); [lia|].
    rewrite mod2_odd, <- Z.negb_even, He; reflexivity.
  - intros Hn Hodd. pose proof (is_prime_odd_false n Hn Hodd) as Hf.
    split; [exact Hf|].
    split.
    + intros Ht d Hr Hd Hdiv.
      assert (is_prime n = false) by (apply Hf; exists d; auto). congruence.
    + intros Hnone. apply not_false_is_true. intros E.
      apply Hf in E. destruct E as (d & Hr & Hd & Hdiv).
      exact (Hnone d Hr Hd Hdiv).
Qed.

Example is_prime_boundary :
  map is_prime [0; 1; 2; 3; 4; 9; 97; 100; -7]
  = [false; false; true; true; false; false; true; false; false].
Proof. reflexivity. Qed.

(** The float literals of the program are the binary64 numbers nearest to
    their decimal values: within half a unit in the last place. *)
Lemma literals_nearest :
  growth_factor = S754_finite false 7555786372591432 (-77) /\
  valid_binary 53 1024 growth_factor = true /\
  2 * Z.abs (7555786372591432 * 10 ^ 8 - 5 * 2 ^ 77) <= 10 ^ 8 /\
  slice_seconds = S754_finite false 7205759403792794 (-55) /\
  valid_binary 53 1024 slice_seconds = true /\
  2 * Z.abs (7205759403792794 * 10 - 2 * 2 ^ 55) <= 10 /\
  one_second = S754_finite false (2 ^ 52) (-52) /\
  valid_binary 53 1024 one_second = true.
Proof. repeat split; vm_compute; congruence. Qed.

(** The growth term at the first point where it is not 0, and the error of
    the conversion once the cursor no longer fits binary64. *)
Example growth_at_threshold :
  growth 19999999 = Some 0 /\ growth 20000000 = Some 1 /\
  growth (2 ^ 1024) = None.
Proof. repeat split; vm_compute; reflexivity. Qed.

(** The end-to-end scenario of a pool of one: the first slice of worker 0,
    if the clock lets it test 100 to 113, reports the five primes 101, 103,
    107, 109, 113. *)
Example first_slice_pool_of_one :
  worker_process 0 1 [false; true]
    (repeat (S754_zero false) 15 ++ [one_second])
  = (Returned, [Report.mk 0 5 113]).
Proof. vm_compute. reflexivity. Qed.

Section Binary64Rounding.

Lemma iter_pos_nat {A} (f : A -> A) (p : positive) (x : A) :
  iter_pos f p x = Nat.iter (Pos.to_nat p) f x.
Proof.
  revert x; induction p as [p IH|p IH|]; intros x; cbn [iter_pos].
  - rewrite !IH, Pos2Nat.inj_xI.
    replace (S (2 * Pos.to_nat p)) with (Pos.to_nat p + (Pos.to_nat p + 1))%nat by lia.
    rewrite !Nat.iter_add. reflexivity.
  - rewrite !IH, Pos2Nat.inj_xO.
    replace (2 * Pos.to_nat p)%nat with (Pos.to_nat p + Pos.to_nat p)%nat by lia.
    rewrite Nat.iter_add. reflexivity.
  - reflexivity.
Qed.

Lemma shr_1_nonneg (m : Z) (r s : bool) :
  0 <= m ->
  shr_1 (Build_shr_record m r s) = Build_shr_record (m / 2) (Z.odd m) (r || s).
Proof.
  intros Hm. destruct m as [|p|p]; [reflexivity | | lia].
  destruct p as [p|p|]; simpl shr_1.
  - f_equal. rewrite Pos2Z.inj_xI. 
    rewrite (Z.mul_comm 2), Z.div_add_l by lia. reflexivity.
  - f_equal. rewrite Pos2Z.inj_xO, (Z.mul_comm 2), Z.div_mul by lia. reflexivity.
  - reflexivity.
Qed.


Lemma mod_pow2_succ (x k : Z) :
  0 <= x -> 0 <= k ->
  Z.odd (x / 2 ^ k) || negb (x mod 2 ^ k =? 0) = negb (x mod 2 ^ (k + 1) =? 0).
Proof.
  intros Hx Hk.
  assert (0 < 2 ^ k) as Hp by (apply Z.pow_pos_nonneg; lia).
  rewrite Z.pow_add_r, Z.pow_1_r by lia.
  rewrite Z.rem_mul_r by lia.
  pose proof (Z.mod_pos_bound x (2 ^ k) Hp) as Hm.
  rewrite (Zmod_odd (x / 2 ^ k)).
  destruct (Z.odd (x / 2 ^ k));
    destruct (Z.eqb_spec (x mod 2 ^ k) 0) as [E0|E0];
    simpl; symmetry; rewrite ?negb_true_iff, ?negb_false_iff, ?Z.eqb_eq, ?Z.eqb_neq; lia.
Qed.

Lemma iter_shr (x : Z) (k : nat) :
  0 <= x ->
  Nat.iter (S k) shr_1 (Build_shr_record x false false) =
  Build_shr_record (x / 2 ^ Z.of_nat (S k)) (Z.odd (x / 2 ^ Z.of_nat k))
                   (negb (x mod 2 ^ Z.of_nat k =? 0)).
Proof.
  intros Hx. induction k as [|k IH].
  - cbn [Nat.iter]. rewrite shr_1_nonneg by assumption.
    change (2 ^ Z.of_nat 1) with 2. change (2 ^ Z.of_nat 0) with 1.
    rewrite Z.div_1_r, Z.mod_1_r. reflexivity.
  - rewrite Nat.iter_succ, IH.
    assert (0 < 2 ^ Z.of_nat (S k)) as Hp by (apply Z.pow_pos_nonneg; lia).
    rewrite shr_1_nonneg by (apply Z.div_pos; lia).
    f_equal.
    + rewrite Z.div_div by lia.
      rewrite (Nat2Z.inj_succ (S k)), Z.pow_succ_r by lia.
      f_equal; lia.
    + rewrite mod_pow2_succ by lia.
      now rewrite (Nat2Z.inj_succ k), <- Z.add_1_r.
Qed.

Lemma shr_spec (x e n : Z) :
  0 <= x ->
  shr (Build_shr_record x false false) e n =
  if n <=? 0 then (Build_shr_record x false false, e)
  else (Build_shr_record (x / 2 ^ n) (Z.odd (x / 2 ^ (n - 1)))
                         (negb (x mod 2 ^ (n - 1) =? 0)), e + n).
Proof.
  intros Hx. destruct n as [|p|p]; try reflexivity.
  unfold shr. rewrite iter_pos_nat.
  destruct (Z.leb_spec (Z.pos p) 0) as [|_]; [lia|].
  destruct (Pos.to_nat p) as [|k] eqn:Ek; [lia|].
  rewrite iter_shr by assumption.
  replace (Z.of_nat (S k)) with (Z.pos p) by lia.
  replace (Z.of_nat k) with (Z.pos p - 1) by lia.
  reflexivity.
Qed.

Lemma round_shr (q : Z) (r s : bool) :
  round_nearest_even q (loc_of_shr_record (Build_shr_record q r s)) =
  if r && (s || Z.odd q) then q + 1 else q.
Proof.
  destruct r, s; simpl; try reflexivity.
  rewrite <- Z.negb_odd. destruct (Z.odd q); reflexivity.
Qed.

Lemma digits2_pos_bounds (p : positive) :
  2 ^ (Z.pos (digits2_pos p) - 1) <= Z.pos p < 2 ^ Z.pos (digits2_pos p).
Proof.
  induction p as [p IH|p IH|]; cbn [digits2_pos].
  - rewrite Pos2Z.inj_succ, Pos2Z.inj_xI.
    replace (Z.succ (Z.pos (digits2_pos p)) - 1) with (Z.succ (Z.pos (digits2_pos p) - 1)) by lia.
    rewrite !Z.pow_succ_r by lia. lia.
  - rewrite Pos2Z.inj_succ. change (Z.pos p~0) with (2 * Z.pos p).
    replace (Z.succ (Z.pos (digits2_pos p)) - 1) with (Z.succ (Z.pos (digits2_pos p) - 1)) by lia.
    rewrite !Z.pow_succ_r by lia. lia.
  - split; [apply Z.le_refl | reflexivity].
Qed.

Lemma Zdigits2_bounds (x : Z) :
  0 < x -> 2 ^ (Zdigits2 x - 1) <= x < 2 ^ Zdigits2 x.
Proof.
  destruct x as [|p|p]; try lia. intros _. apply digits2_pos_bounds.
Qed.

Lemma Zdigits2_unique (x d : Z) :
  2 ^ (d - 1) <= x < 2 ^ d -> 0 < x -> Zdigits2 x = d.
Proof.
  intros Hd Hx. pose proof (Zdigits2_bounds x Hx) as Hb.
  assert (0 < Zdigits2 x) by (destruct x; simpl; lia).
  assert (0 < d).
  { destruct (Z_lt_le_dec 0 d); [assumption|].
    destruct (Z.eq_dec d 0) as [->|]; [simpl in Hd; lia|].
    rewrite (Z.pow_neg_r 2 d) in Hd by lia. lia. }
  destruct (Z.lt_trichotomy (Zdigits2 x) d) as [Hlt|[Heq|Hgt]]; [|assumption|].
  - assert (2 ^ Zdigits2 x <= 2 ^ (d - 1)) by (apply Z.pow_le_mono_r; lia). lia.
  - assert (2 ^ d <= 2 ^ (Zdigits2 x - 1)) by (apply Z.pow_le_mono_r; lia). lia.
Qed.


Lemma rne_bounds (x n : Z) :
  0 <= x -> 1 <= n ->
  (2 * rne x n - 1) * 2 ^ (n - 1) <= x <= (2 * rne x n + 1) * 2 ^ (n - 1) /\
  x / 2 ^ n <= rne x n <= x / 2 ^ n + 1.
Proof.
  intros Hx Hn. unfold rne.
  assert (0 < 2 ^ (n - 1)) as Hh by (apply Z.pow_pos_nonneg; lia).
  assert (2 ^ n = 2 ^ (n - 1) * 2) as Hpow.
  { replace n with (Z.succ (n - 1)) at 1 by lia.
    rewrite Z.pow_succ_r by lia. lia. }
  rewrite Hpow.
  rewrite <- Z.div_div by lia.
  set (h := 2 ^ (n - 1)) in *. set (b := x / h).
  pose proof (Z.div_mod x h ltac:(lia)) as Hdm. fold b in Hdm.
  pose proof (Z.mod_pos_bound x h Hh) as Hm.
  pose proof (Z.div_mod b 2 ltac:(lia)) as Hb.
  pose proof (Zmod_odd b) as Ho.
  pose proof (Zmod_odd (b / 2)) as Hq.
  pose proof (Z.div_mod (b / 2) 2 ltac:(lia)) as Hq2.
  destruct (Z.odd b); cbn [andb].
  - destruct (Z.eqb_spec (x mod h) 0); cbn [negb orb].
    + destruct (Z.odd (b / 2)); nia.
    + nia.
  - nia.
Qed.

Lemma rne_mono (x y n : Z) :
  0 <= x <= y -> 1 <= n -> rne x n <= rne y n.
Proof.
  intros Hxy Hn.
  destruct (rne_bounds x n ltac:(lia) Hn) as [Hbx _].
  destruct (rne_bounds y n ltac:(lia) Hn) as [Hby _].
  assert (0 < 2 ^ (n - 1)) as Hh by (apply Z.pow_pos_nonneg; lia).
  destruct (Z_le_gt_dec (rne x n) (rne y n)) as [|Hgt]; [assumption|exfalso].
  destruct (Z.eq_dec x y) as [->|Hne]; [lia|].
  nia.
Qed.

Lemma shr_fexp_spec (x e : Z) :
  0 < x -> -1074 <= Zdigits2 x + e - 53 ->
  shr_fexp 53 1024 x e loc_Exact =
  shr (Build_shr_record x false false) e (Zdigits2 x - 53).
Proof.
  intros Hx Hn. unfold shr_fexp, fexp, emin. cbn [shr_record_of_loc].
  f_equal. lia.
Qed.

Lemma binary_round_aux_spec (x e : Z) :
  0 < x -> 53 <= Zdigits2 x -> -1074 <= Zdigits2 x + e - 53 ->
  binary_round_aux 53 1024 false x e loc_Exact = pack (rnd53 x e).
Proof.
  intros Hx Hd Hn. unfold binary_round_aux, rnd53.
  rewrite shr_fexp_spec, shr_spec by lia.
  pose proof (Zdigits2_bounds x Hx) as Hb.
  set (n := Zdigits2 x - 53) in *.
  change (1024 - 53) with 971.
  destruct (Z.leb_spec n 0) as [Hle|Hgt].
  - cbn [shr_m loc_of_shr_record round_nearest_even].
    rewrite shr_fexp_spec, shr_spec by lia. fold n.
    destruct (Z.leb_spec n 0); [|lia].
    cbn [shr_m]. unfold pack; cbn [fst snd]. destruct x; try lia; reflexivity.
  - cbn [shr_m]. rewrite round_shr. fold (rne x n).
    destruct (rne_bounds x n ltac:(lia) ltac:(lia)) as [_ Hq].
    assert (0 < 2 ^ n) as Hp by (apply Z.pow_pos_nonneg; lia).
    assert (2 ^ 52 <= x / 2 ^ n < 2 ^ 53) as Hqb.
    { replace (Zdigits2 x) with (53 + n) in Hb by lia.
      replace (53 + n - 1) with (52 + n) in Hb by lia.
      rewrite !Z.pow_add_r in Hb by lia.
      split; [apply Z.div_le_lower_bound | apply Z.div_lt_upper_bound]; lia. }
    set (a := rne x n) in *.
    destruct (Z.eqb_spec a (2 ^ 53)) as [Ea|Ea].
    + rewrite Ea.
      rewrite shr_fexp_spec;
        [|reflexivity | change (Zdigits2 (2 ^ 53)) with 54; lia].
      change (Zdigits2 (2 ^ 53) - 53) with 1.
      rewrite shr_spec by lia. reflexivity.
    + assert (Zdigits2 a = 53) as Hda by (apply Zdigits2_unique; lia).
      rewrite shr_fexp_spec, Hda by lia.
      rewrite shr_spec by lia. simpl (53 - 53 <=? 0).
      cbn [shr_m]. unfold pack; cbn [fst snd].
      destruct a; try lia; reflexivity.
Qed.

End Binary64Rounding.

Section RoundTo53.

Lemma Zdigits2_shift (x k : Z) :
  0 < x -> 0 <= k -> Zdigits2 (x * 2 ^ k) = Zdigits2 x + k.
Proof.
  intros Hx Hk. pose proof (Zdigits2_bounds x Hx) as Hb.
  assert (0 < Zdigits2 x) by (destruct x; simpl; lia).
  assert (0 < 2 ^ k) by (apply Z.pow_pos_nonneg; lia).
  apply Zdigits2_unique; [|lia].
  replace (Zdigits2 x + k - 1) with (Zdigits2 x - 1 + k) by lia.
  rewrite !Z.pow_add_r by lia. nia.
Qed.

Lemma rne_shift (x n k : Z) :
  0 <= x -> 1 <= n -> 0 <= k -> rne (x * 2 ^ k) (n + k) = rne x n.
Proof.
  intros Hx Hn Hk. unfold rne.
  assert (0 < 2 ^ k) by (apply Z.pow_pos_nonneg; lia).
  assert (0 < 2 ^ (n - 1)) by (apply Z.pow_pos_nonneg; lia).
  assert (0 < 2 ^ n) by (apply Z.pow_pos_nonneg; lia).
  replace (n + k - 1) with (n - 1 + k) by lia.
  rewrite !Z.pow_add_r by lia.
  rewrite !Z.div_mul_cancel_r by lia.
  rewrite Z.mul_mod_distr_r by lia.
  replace (x mod 2 ^ (n - 1) * 2 ^ k =? 0) with (x mod 2 ^ (n - 1) =? 0); [reflexivity|].
  destruct (Z.eqb_spec (x mod 2 ^ (n - 1)) 0) as [->|Hne]; [reflexivity|].
  symmetry; apply Z.eqb_neq; nia.
Qed.

Lemma rne_exact (x k : Z) :
  0 <= x -> 1 <= k -> rne (x * 2 ^ k) k = x.
Proof.
  intros Hx Hk. unfold rne.
  assert (0 < 2 ^ (k - 1)) by (apply Z.pow_pos_nonneg; lia).
  assert (2 ^ k = 2 * 2 ^ (k - 1)) as Hpow.
  { replace k with (Z.succ (k - 1)) at 1 by lia.
    rewrite Z.pow_succ_r by lia. lia. }
  rewrite Z.div_mul by lia.
  rewrite Hpow at 1. rewrite Z.mul_assoc, Z.div_mul by lia.
  rewrite Z.odd_mul, andb_false_r. reflexivity.
Qed.

Lemma rnd53_shift (x e k : Z) :
  0 < x -> 53 <= Zdigits2 x -> 0 <= k ->
  rnd53 (x * 2 ^ k) (e - k) = rnd53 x e.
Proof.
  intros Hx Hd Hk. unfold rnd53. rewrite Zdigits2_shift by lia.
  pose proof (Zdigits2_bounds x Hx) as Hb.
  destruct (Z.leb_spec (Zdigits2 x - 53) 0) as [Hn|Hn].
  - assert (Zdigits2 x = 53) as E by lia. rewrite E in *.
    replace (53 + k - 53) with k by lia.
    destruct (Z.leb_spec k 0) as [Hk0|Hk0].
    + replace k with 0 by lia. rewrite Z.mul_1_r, Z.sub_0_r. reflexivity.
    + rewrite rne_exact by lia.
      destruct (Z.eqb_spec x (2 ^ 53)); [lia|]. f_equal; lia.
  - destruct (Z.leb_spec (Zdigits2 x + k - 53) 0); [lia|].
    replace (Zdigits2 x + k - 53) with (Zdigits2 x - 53 + k) by lia.
    rewrite rne_shift by lia.
    destruct (rne x (Zdigits2 x - 53) =? 2 ^ 53); f_equal; lia.
Qed.

Lemma rnd53_canon (x e : Z) :
  0 < x -> 53 <= Zdigits2 x -> canon (rnd53 x e).
Proof.
  intros Hx Hd. unfold rnd53, canon.
  pose proof (Zdigits2_bounds x Hx) as Hb.
  destruct (Z.leb_spec (Zdigits2 x - 53) 0) as [Hn|Hn]; cbn [fst].
  - replace (Zdigits2 x) with 53 in Hb by lia. exact Hb.
  - set (n := Zdigits2 x - 53) in *.
    destruct (rne_bounds x n ltac:(lia) ltac:(lia)) as [_ Hq].
    assert (0 < 2 ^ n) as Hp by (apply Z.pow_pos_nonneg; lia).
    assert (2 ^ 52 <= x / 2 ^ n < 2 ^ 53) as Hqb.
    { replace (Zdigits2 x) with (53 + n) in Hb by lia.
      replace (53 + n - 1) with (52 + n) in Hb by lia.
      rewrite !Z.pow_add_r in Hb by lia.
      split; [apply Z.div_le_lower_bound | apply Z.div_lt_upper_bound]; lia. }
    destruct (Z.eqb_spec (rne x n) (2 ^ 53)); cbn [fst]; lia.
Qed.

Lemma Zdigits2_mono (x y : Z) : 0 < x <= y -> Zdigits2 x <= Zdigits2 y.
Proof.
  intros Hxy.
  pose proof (Zdigits2_bounds x ltac:(lia)) as Hx.
  pose proof (Zdigits2_bounds y ltac:(lia)) as Hy.
  destruct (Z_le_gt_dec (Zdigits2 x) (Zdigits2 y)) as [|Hgt]; [assumption|].
  assert (2 ^ Zdigits2 y <= 2 ^ (Zdigits2 x - 1)) by (apply Z.pow_le_mono_r; lia).
  lia.
Qed.

(** The exponent chosen by [rnd53] only depends on the number of digits. *)
Lemma rnd53_snd (x e : Z) :
  0 < x -> 53 <= Zdigits2 x ->
  e + (Zdigits2 x - 53) <= snd (rnd53 x e) <= e + (Zdigits2 x - 53) + 1 /\
  (snd (rnd53 x e) = e + (Zdigits2 x - 53) + 1 -> fst (rnd53 x e) = 2 ^ 52).
Proof.
  intros Hx Hd. unfold rnd53.
  destruct (Z.leb_spec (Zdigits2 x - 53) 0); cbn [fst snd]; [lia|].
  destruct (rne x (Zdigits2 x - 53) =? 2 ^ 53); cbn [fst snd]; lia.
Qed.

Lemma rnd53_mono (x y e : Z) :
  0 < x <= y -> 53 <= Zdigits2 x -> pair_le (rnd53 x e) (rnd53 y e).
Proof.
  intros Hxy Hd.
  pose proof (Zdigits2_mono x y Hxy) as Hdd.
  pose proof (rnd53_canon x e ltac:(lia) Hd) as Hcx.
  pose proof (rnd53_canon y e ltac:(lia) ltac:(lia)) as Hcy.
  pose proof (rnd53_snd x e ltac:(lia) Hd) as [Hsx Hsx'].
  pose proof (rnd53_snd y e ltac:(lia) ltac:(lia)) as [Hsy Hsy'].
  unfold canon, pair_le in *.
  destruct (Z.eq_dec (Zdigits2 x) (Zdigits2 y)) as [Ed|Ed].
  - revert Hcx Hcy Hsx Hsx' Hsy Hsy'. unfold rnd53. rewrite <- Ed.
    destruct (Z.leb_spec (Zdigits2 x - 53) 0) as [Hn|Hn]; cbn [fst snd]; [lia|].
    pose proof (rne_mono x y (Zdigits2 x - 53) ltac:(lia) ltac:(lia)) as Hm.
    destruct (Z.eqb_spec (rne x (Zdigits2 x - 53)) (2 ^ 53));
      destruct (Z.eqb_spec (rne y (Zdigits2 x - 53)) (2 ^ 53)); cbn [fst snd]; lia.
  - destruct (Z.eq_dec (snd (rnd53 x e)) (e + (Zdigits2 x - 53) + 1)) as [E|E]; [|lia].
    specialize (Hsx' E). lia.
Qed.

End RoundTo53.

Section GrowthTerm.

Lemma iter_xO (p d : positive) :
  Z.pos (Pos.iter xO p d) = Z.pos p * 2 ^ Z.pos d.
Proof.
  induction d as [|d IH] using Pos.peano_ind.
  - cbn [Pos.iter]. rewrite Z.pow_1_r. lia.
  - rewrite Pos.iter_succ, Pos2Z.inj_succ, Z.pow_succ_r by lia.
    change (Z.pos (Pos.iter xO p d)~0) with (2 * Z.pos (Pos.iter xO p d)).
    rewrite IH. lia.
Qed.

Lemma float_of_int_spec (v : Z) :
  0 < v ->
  float_of_int v =
  if snd (fpair v) <=? 971
  then Some (S754_finite false (Z.to_pos (fst (fpair v))) (snd (fpair v)))
  else None.
Proof.
  intros Hv. destruct v as [|p|p]; try lia.
  pose proof (Zdigits2_bounds (Z.pos p) Hv) as Hb.
  assert (forall x e, 0 < x -> 53 <= Zdigits2 x -> -1074 <= Zdigits2 x + e - 53 ->
            fpair (Z.pos p) = rnd53 x e ->
            match binary_round_aux 53 1024 false x e loc_Exact with
            | S754_infinity _ => None
            | f => Some f
            end =
            if snd (fpair (Z.pos p)) <=? 971
            then Some (S754_finite false (Z.to_pos (fst (fpair (Z.pos p)))) (snd (fpair (Z.pos p))))
            else None) as Haux.
  { intros x e Hx Hd Hn ->. rewrite binary_round_aux_spec by assumption.
    pose proof (rnd53_canon x e Hx Hd) as Hc. unfold canon in Hc.
    unfold pack. destruct (fst (rnd53 x e)) as [|m|m]; try lia.
    destruct (snd (rnd53 x e) <=? 971); reflexivity. }
  unfold float_of_int, binary_normalize, binary_round, shl_align, fexp, emin.
  cbn [Zdigits2] in Hb. set (d := Z.pos (digits2_pos p)) in *.
  assert (0 < d) by (unfold d; lia).
  replace (Z.max (d + 0 - 53) (3 - 1024 - 53) - 0) with (d - 53) by lia.
  destruct (d - 53) as [|k|k] eqn:Ek.
  - apply Haux; try (cbn [Zdigits2]; fold d; lia).
    unfold fpair. rewrite <- (rnd53_shift (Z.pos p) 0 53); cbn [Zdigits2]; fold d; try lia.
    reflexivity.
  - replace (Z.max (d + 0 - 53) (3 - 1024 - 53)) with (d - 53) by lia.
    apply Haux; try (cbn [Zdigits2]; fold d; lia).
    unfold fpair. rewrite <- (rnd53_shift (Z.pos p) 0 53); cbn [Zdigits2]; fold d; try lia.
    reflexivity.
  - replace (Z.max (d + 0 - 53) (3 - 1024 - 53)) with (d - 53) by lia.
    assert (Zdigits2 (Z.pos (Pos.iter xO p k)) = 53) as Hd53.
    { rewrite iter_xO, Zdigits2_shift by lia. cbn [Zdigits2]. fold d. lia. }
    apply Haux; try lia.
    unfold fpair. rewrite iter_xO.
    replace (2 ^ 53) with (2 ^ Z.pos k * 2 ^ d)
      by (rewrite <- Z.pow_add_r by lia; f_equal; lia).
    rewrite Z.mul_assoc.
    replace (-53) with (d - 53 - d) by lia.
    rewrite <- iter_xO.
    rewrite rnd53_shift; [reflexivity | lia | lia | lia].
Qed.


Lemma fpair_canon (v : Z) : 0 < v -> canon (fpair v).
Proof.
  intros Hv. apply rnd53_canon; [lia|].
  rewrite Zdigits2_shift by lia.
  assert (0 < Zdigits2 v) by (destruct v; simpl; lia). lia.
Qed.

Lemma fpair_snd (v : Z) :
  0 < v -> Zdigits2 v - 53 <= snd (fpair v) <= Zdigits2 v - 52.
Proof.
  intros Hv. unfold fpair.
  assert (0 < Zdigits2 v) by (destruct v; simpl; lia).
  destruct (rnd53_snd (v * 2 ^ 53) (-53)) as [Hs _]; [lia| |].
  - rewrite Zdigits2_shift by lia. lia.
  - rewrite Zdigits2_shift in Hs by lia. lia.
Qed.

Lemma product_digits (m : Z) :
  2 ^ 52 <= m < 2 ^ 53 -> 105 <= Zdigits2 (m * 7555786372591432) <= 106.
Proof.
  intros Hm. split.
  - change 105 with (Zdigits2 (2 ^ 104)). apply Zdigits2_mono. lia.
  - pose proof (Zdigits2_bounds (m * 7555786372591432) ltac:(lia)) as Hb.
    assert (m * 7555786372591432 < 2 ^ 106) by lia.
    assert (Zdigits2 (m * 7555786372591432) - 1 < 106); [|lia].
    apply (Z.pow_lt_mono_r_iff 2); lia.
Qed.

Lemma gpair_canon (v : Z) : 0 < v -> canon (gpair v).
Proof.
  intros Hv. pose proof (fpair_canon v Hv) as Hc. unfold canon in Hc.
  pose proof (product_digits _ Hc).
  apply rnd53_canon; lia.
Qed.

(** The growth term in closed form: the floor of the twice-rounded
    product, or an [OverflowError] when the cursor is beyond binary64. *)
Lemma growth_spec (v : Z) :
  0 < v ->
  growth v = if snd (fpair v) <=? 971 then Some (floor_pair (gpair v)) else None.
Proof.
  intros Hv. unfold growth. rewrite float_of_int_spec by assumption.
  destruct (Z.leb_spec (snd (fpair v)) 971) as [Hle|Hgt]; [|reflexivity].
  pose proof (fpair_canon v Hv) as Hc. unfold canon in Hc.
  pose proof (fpair_snd v Hv) as Hs.
  assert (0 < Zdigits2 v) by (destruct v; simpl; lia).
  pose proof (product_digits _ Hc) as Hpd.
  pose proof (gpair_canon v Hv) as Hg. unfold canon in Hg.
  unfold float_mul, growth_factor, SFmul. cbn [xorb].
  rewrite Pos2Z.inj_mul, Z2Pos.id by lia.
  rewrite binary_round_aux_spec by lia.
  fold (gpair v).
  destruct (rnd53_snd (fst (fpair v) * 7555786372591432) (snd (fpair v) + -77))
    as [Hgs _]; [lia | lia |].
  replace (snd (fpair v) + -77) with (snd (fpair v) - 77) in * by lia.
  fold (gpair v) in Hgs |- *.
  unfold pack, floor_pair.
  destruct (fst (gpair v)) as [|m|m] eqn:Em; try lia.
  destruct (Z.leb_spec (snd (gpair v)) 971); [|lia].
  reflexivity.
Qed.

Lemma floor_pair_scaled (me : Z * Z) (K : Z) :
  0 <= K -> 0 <= snd me + K ->
  floor_pair me = (fst me * 2 ^ (snd me + K)) / 2 ^ K.
Proof.
  destruct me as [m e]; cbn [fst snd]; intros HK HeK. unfold floor_pair; cbn [fst snd].
  assert (0 < 2 ^ K) by (apply Z.pow_pos_nonneg; lia).
  destruct (Z.leb_spec 0 e).
  - rewrite Z.pow_add_r, Z.mul_assoc, Z.div_mul by lia. reflexivity.
  - replace K with (- e + (e + K)) at 2 by lia.
    assert (0 < 2 ^ (e + K)) by (apply Z.pow_pos_nonneg; lia).
    rewrite (Z.pow_add_r 2 (- e)) by lia.
    rewrite Z.div_mul_cancel_r by lia. reflexivity.
Qed.

Lemma floor_pair_mono (a b : Z * Z) :
  canon a -> canon b -> pair_le a b -> floor_pair a <= floor_pair b.
Proof.
  unfold canon, pair_le. intros Ha Hb Hle.
  set (K := Z.max 0 (Z.max (- snd a) (- snd b))).
  rewrite (floor_pair_scaled a K), (floor_pair_scaled b K) by lia.
  assert (0 < 2 ^ K) by (apply Z.pow_pos_nonneg; lia).
  assert (0 < 2 ^ (snd a + K)) by (apply Z.pow_pos_nonneg; lia).
  apply Z.div_le_mono; [lia|].
  destruct Hle as [Hlt|[Heq Hm]].
  - replace (snd b + K) with (Z.succ (snd b - snd a - 1) + (snd a + K)) by lia.
    rewrite (Z.pow_add_r 2 (Z.succ (snd b - snd a - 1))), Z.pow_succ_r by lia.
    assert (0 < 2 ^ (snd b - snd a - 1)) by (apply Z.pow_pos_nonneg; lia).
    set (P := 2 ^ (snd a + K)) in *. set (Q := 2 ^ (snd b - snd a - 1)) in *.
    assert (fst a * P <= 2 * fst b * P) by (apply Z.mul_le_mono_nonneg_r; lia).
    assert (2 * fst b * P * 1 <= 2 * fst b * P * Q)
      by (apply Z.mul_le_mono_nonneg_l; [apply Z.mul_nonneg_nonneg|]; lia).
    lia.
  - rewrite Heq. nia.
Qed.

Lemma fpair_mono (u v : Z) : 0 < u <= v -> pair_le (fpair u) (fpair v).
Proof.
  intros Huv. apply rnd53_mono; [lia|].
  rewrite Zdigits2_shift by lia.
  assert (0 < Zdigits2 u) by (destruct u; simpl; lia). lia.
Qed.

Lemma gpair_mono (u v : Z) : 0 < u <= v -> pair_le (gpair u) (gpair v).
Proof.
  intros Huv.
  pose proof (fpair_canon u ltac:(lia)) as Hcu.
  pose proof (fpair_canon v ltac:(lia)) as Hcv.
  pose proof (fpair_mono u v Huv) as Hle.
  unfold canon, pair_le in *. unfold gpair.
  pose proof (product_digits _ Hcu). pose proof (product_digits _ Hcv).
  destruct Hle as [Hlt|[Heq Hm]].
  - set (k := snd (fpair v) - snd (fpair u)).
    assert (1 <= k) as Hk by (unfold k; lia).
    rewrite <- (rnd53_shift (fst (fpair v) * 7555786372591432) _ k); [|lia..].
    replace (snd (fpair v) - 77 - k) with (snd (fpair u) - 77) by (unfold k; lia).
    apply rnd53_mono; [|lia].
    assert (2 <= 2 ^ k).
    { change 2 with (2 ^ 1) at 1. apply Z.pow_le_mono_r; lia. }
    nia.
  - rewrite Heq. apply rnd53_mono; [nia | lia].
Qed.

Lemma growth_nonneg (v g : Z) : 0 < v -> growth v = Some g -> 0 <= g.
Proof.
  intros Hv. rewrite growth_spec by assumption.
  destruct (snd (fpair v) <=? 971); [|discriminate].
  intros [= <-]. pose proof (gpair_canon v Hv) as Hc. unfold canon in Hc.
  unfold floor_pair. destruct (Z.leb_spec 0 (snd (gpair v))).
  - apply Z.mul_nonneg_nonneg; [lia|]. apply Z.pow_nonneg; lia.
  - apply Z.div_pos; [lia|]. apply Z.pow_pos_nonneg; lia.
Qed.

Lemma growth_mono (u v a b : Z) :
  0 < u <= v -> growth u = Some a -> growth v = Some b -> a <= b.
Proof.
  intros Huv. rewrite !growth_spec by lia.
  destruct (snd (fpair u) <=? 971); [|discriminate].
  destruct (snd (fpair v) <=? 971); [|discriminate].
  intros [= <-] [= <-].
  apply floor_pair_mono; [apply gpair_canon | apply gpair_canon | apply gpair_mono]; lia.
Qed.

Lemma growth_defined (v : Z) :
  0 < v < 2 ^ 1023 -> exists g, growth v = Some g.
Proof.
  intros Hv. rewrite growth_spec by lia.
  pose proof (fpair_snd v ltac:(lia)) as Hs.
  pose proof (Zdigits2_bounds v ltac:(lia)) as Hb.
  assert (Zdigits2 v - 1 < 1023) by (apply (Z.pow_lt_mono_r_iff 2); lia).
  destruct (Z.leb_spec (snd (fpair v)) 971); [eauto | lia].
Qed.

Lemma growth_overflow (v : Z) : 2 ^ 1024 <= v -> growth v = None.
Proof.
  intros Hv. assert (0 < 2 ^ 1024) by (apply Z.pow_pos_nonneg; lia).
  rewrite growth_spec by lia.
  pose proof (fpair_snd v ltac:(lia)) as Hs.
  pose proof (Zdigits2_bounds v ltac:(lia)) as Hb.
  assert (0 < Zdigits2 v) by (destruct v; simpl; lia).
  assert (1024 < Zdigits2 v) by (apply (Z.pow_lt_mono_r_iff 2); lia).
  destruct (Z.leb_spec (snd (fpair v)) 971); [lia | reflexivity].
Qed.


Lemma fpair_small (v : Z) :
  0 < v < 2 ^ 53 ->
  fpair v = (v * 2 ^ (53 - Zdigits2 v), Zdigits2 v - 53).
Proof.
  intros Hv. unfold fpair.
  pose proof (Zdigits2_bounds v ltac:(lia)) as Hb.
  assert (0 < Zdigits2 v) as Hd0 by (destruct v; simpl; lia).
  assert (Zdigits2 v - 1 < 53) by (apply (Z.pow_lt_mono_r_iff 2); lia).
  set (d := Zdigits2 v) in *.
  assert (Zdigits2 (v * 2 ^ (53 - d)) = 53) as Hd53
    by (rewrite Zdigits2_shift by lia; fold d; lia).
  assert (0 < 2 ^ (53 - d)) by (apply Z.pow_pos_nonneg; lia).
  replace (2 ^ 53) with (2 ^ (53 - d) * 2 ^ d)
    by (rewrite <- Z.pow_add_r by lia; f_equal; lia).
  rewrite Z.mul_assoc. replace (-53) with (d - 53 - d) by lia.
  rewrite rnd53_shift by nia.
  unfold rnd53. rewrite Hd53. reflexivity.
Qed.

Lemma gpair_small (v : Z) :
  0 < v < 2 ^ 53 -> gpair v = rnd53 (v * 7555786372591432) (-77).
Proof.
  intros Hv. unfold gpair. rewrite fpair_small by assumption. cbn [fst snd].
  pose proof (Zdigits2_bounds v ltac:(lia)) as Hb.
  assert (0 < Zdigits2 v) as Hd0 by (destruct v; simpl; lia).
  assert (Zdigits2 v - 1 < 53) by (apply (Z.pow_lt_mono_r_iff 2); lia).
  set (k := 53 - Zdigits2 v).
  replace (Zdigits2 v - 53 - 77) with (-77 - k) by (unfold k; lia).
  replace (v * 2 ^ k * 7555786372591432) with (v * 7555786372591432 * 2 ^ k) by lia.
  apply rnd53_shift; [lia | | unfold k; lia].
  change 53 with (Zdigits2 (2 ^ 52)). apply Zdigits2_mono. lia.
Qed.

(** Below 2^53 the binary64 product, once floored, is the exact quotient. *)
Lemma floor_product_exact (v : Z) :
  0 < v < 2 ^ 53 ->
  floor_pair (rnd53 (v * 7555786372591432) (-77)) = v / 20000000.
Proof.
  intros Hv.
  remember (v * 7555786372591432) as x eqn:Ex.
  assert (53 <= Zdigits2 x)
    by (change 53 with (Zdigits2 (2 ^ 52)); apply Zdigits2_mono; lia).
  pose proof (Zdigits2_bounds x ltac:(lia)) as Hb.
  assert (Zdigits2 x - 1 < 106) by (apply (Z.pow_lt_mono_r_iff 2); lia).
  pose proof (Z.div_mod v 20000000 ltac:(lia)) as Hdm.
  pose proof (Z.mod_pos_bound v 20000000 ltac:(lia)) as Hj.
  assert (0 <= v / 20000000) by (apply Z.div_pos; lia).
  remember (v / 20000000) as k eqn:Ek. remember (v mod 20000000) as j eqn:Ej.
  unfold rnd53. remember (Zdigits2 x - 53) as n eqn:En.
  destruct (Z.leb_spec n 0) as [Hn|Hn].
  - (* no rounding: the product has 53 digits, so v = 1 *)
    unfold floor_pair; cbn [fst snd]. change (0 <=? -77) with false. cbv iota.
    replace (Zdigits2 x) with 53 in Hb by lia.
    assert (k = 0) by lia.
    change (- -77) with 77. rewrite Z.div_small; lia.
  - destruct (rne_bounds x n ltac:(lia) ltac:(lia)) as [Hr _].
    remember (rne x n) as a eqn:Ea. clear Ea.
    assert (0 < 2 ^ (n - 1)) as HH by (apply Z.pow_pos_nonneg; lia).
    assert (0 < 2 ^ (77 - n)) as HT by (apply Z.pow_pos_nonneg; lia).
    assert (2 ^ (77 - n) * (2 * 2 ^ (n - 1)) = 2 ^ 77) as HTH.
    { rewrite <- Z.pow_succ_r, <- Z.pow_add_r by lia. f_equal; lia. }
    assert (2 ^ (n - 1) * 2 ^ 53 <= x < 2 ^ (n - 1) * 2 ^ 54) as Hxb.
    { replace (Zdigits2 x) with ((n - 1) + 54) in Hb by lia.
      replace (n - 1 + 54 - 1) with ((n - 1) + 53) in Hb by lia.
      rewrite !Z.pow_add_r in Hb by lia. lia. }
    assert (2 ^ (n - 1) <= 2 ^ 52) as HH52 by (apply Z.pow_le_mono_r; lia).
    assert (2 ^ (77 - n) = 2 ^ (77 - n - 1) * 2) as HT2.
    { replace (77 - n) with (Z.succ (77 - n - 1)) at 1 by lia.
      rewrite Z.pow_succ_r by lia. lia. }
    assert (0 < 2 ^ (77 - n - 1)) as HT' by (apply Z.pow_pos_nonneg; lia).
    assert (floor_pair (if a =? 2 ^ 53 then (2 ^ 52, -77 + n + 1) else (a, -77 + n))
            = a / 2 ^ (77 - n)) as ->.
    { unfold floor_pair.
      destruct (Z.eqb_spec a (2 ^ 53)) as [E|E]; cbn [fst snd].
      - destruct (Z.leb_spec 0 (-77 + n + 1)); [lia|].
        rewrite E. replace (- (-77 + n + 1)) with (77 - n - 1) by lia.
        rewrite HT2. change (2 ^ 53) with (2 ^ 52 * 2).
        rewrite Z.div_mul_cancel_r by lia. reflexivity.
      - destruct (Z.leb_spec 0 (-77 + n)); [lia|].
        replace (- (-77 + n)) with (77 - n) by lia. reflexivity. }
    clear HT2 HT'.
    remember (2 ^ (n - 1)) as h eqn:EH. remember (2 ^ (77 - n)) as T eqn:ET.
    clear EH ET Hb.
    symmetry. apply (Z.div_unique_pos a T k (a - k * T)); [|lia].
    assert (20000000 * 7555786372591432 = 2 ^ 77 - 6838272) as Heps by reflexivity.
    split.
    + (* k * T <= a *)
      destruct (Z_le_gt_dec (k * T) a) as [|Hgt]; [lia|exfalso].
      assert ((2 * a + 1) * h <= (2 * (k * T) - 1) * h)
        by (apply Z.mul_le_mono_nonneg_r; lia).
      assert ((2 * (k * T) - 1) * h = k * (T * (2 * h)) - h) by ring.
      rewrite HTH in *.
      assert (h <= k * 6838272) by lia.
      assert (h * 2 ^ 54 <= k * 6838272 * 2 ^ 54)
        by (apply Z.mul_le_mono_nonneg_r; lia).
      lia.
    + (* a < (k + 1) * T *)
      destruct (Z_lt_le_dec (a - k * T) T) as [|Hge]; [lia|exfalso].
      assert ((2 * ((k + 1) * T) - 1) * h <= (2 * a - 1) * h)
        by (apply Z.mul_le_mono_nonneg_r; lia).
      assert ((2 * ((k + 1) * T) - 1) * h = (k + 1) * (T * (2 * h)) - h) by ring.
      rewrite HTH in *.
      lia.
Qed.

Lemma growth_exact (v : Z) :
  0 < v < 2 ^ 53 -> growth v = Some (v / 20000000).
Proof.
  intros Hv. rewrite growth_spec by lia.
  pose proof (fpair_snd v ltac:(lia)) as Hs.
  pose proof (Zdigits2_bounds v ltac:(lia)) as Hb.
  assert (Zdigits2 v - 1 < 53) by (apply (Z.pow_lt_mono_r_iff 2); lia).
  destruct (Z.leb_spec (snd (fpair v)) 971); [|lia].
  rewrite gpair_small, floor_product_exact by assumption. reflexivity.
Qed.

End GrowthTerm.

Section SequenceGenerator.

Variable stride : Z.
Hypothesis stride_pos : 1 <= stride.

Lemma advance_spec (c next : Z) :
  advance stride c = Some next <->
  exists g, growth c = Some g /\ next = c + (stride + g).
Proof.
  unfold advance. destruct (growth c) as [g|].
  - split; [intros [= <-]; eauto | intros (g' & [= <-] & ->); reflexivity].
  - split; [discriminate | intros (g' & Hg & _); discriminate].
Qed.

Lemma advance_step (c next : Z) :
  0 < c -> advance stride c = Some next -> c + stride <= next.
Proof.
  intros Hc Ha. apply advance_spec in Ha. destruct Ha as (g & Hg & ->).
  pose proof (growth_nonneg c g Hc Hg). lia.
Qed.

(** The step function is strictly increasing, hence injective. *)
Lemma advance_mono (u v u' v' : Z) :
  0 < u < v -> advance stride u = Some u' -> advance stride v = Some v' ->
  u' < v'.
Proof.
  intros Huv Hu Hv.
  apply advance_spec in Hu, Hv.
  destruct Hu as (a & Ha & ->), Hv as (b & Hb & ->).
  pose proof (growth_mono u v a b ltac:(lia) Ha Hb). lia.
Qed.

Lemma advance_inj (u v w : Z) :
  0 < u -> 0 < v -> advance stride u = Some w -> advance stride v = Some w ->
  u = v.
Proof.
  intros Hu Hv Hau Hav.
  destruct (Z.lt_trichotomy u v) as [Hlt|[Heq|Hgt]]; [|assumption|].
  - pose proof (advance_mono u v w w ltac:(lia) Hau Hav). lia.
  - pose proof (advance_mono v u w w ltac:(lia) Hav Hau). lia.
Qed.

Lemma nth_candidate_succ_r (c : Z) (n : nat) :
  nth_candidate stride c (S n) =
  match nth_candidate stride c n with
  | Some x => advance stride x
  | None => None
  end.
Proof.
  revert c; induction n as [|n IH]; intros c.
  - cbn [nth_candidate]. destruct (advance stride c); reflexivity.
  - change (nth_candidate stride c (S (S n)))
      with (match advance stride c with
            | Some next => nth_candidate stride next (S n)
            | None => None
            end).
    cbn [nth_candidate] in IH |- *.
    destruct (advance stride c) as [next|]; [apply IH | reflexivity].
Qed.

Lemma nth_candidate_add (c : Z) (n m : nat) :
  nth_candidate stride c (n + m) =
  match nth_candidate stride c n with
  | Some x => nth_candidate stride x m
  | None => None
  end.
Proof.
  revert c; induction n as [|n IH]; intros c; cbn [nth_candidate Nat.add].
  - reflexivity.
  - destruct (advance stride c) as [next|]; [apply IH | reflexivity].
Qed.

Lemma nth_candidate_lower (c x : Z) (n : nat) :
  0 < c -> nth_candidate stride c n = Some x -> c + Z.of_nat n * stride <= x.
Proof.
  revert c; induction n as [|n IH]; intros c Hc; cbn [nth_candidate].
  - intros [= <-]. lia.
  - destruct (advance stride c) as [next|] eqn:Ha; [|discriminate].
    intros Hx. pose proof (advance_step c next Hc Ha).
    specialize (IH next ltac:(lia) Hx). nia.
Qed.

Lemma nth_candidate_increasing (c x y : Z) (n m : nat) :
  0 < c -> (n < m)%nat ->
  nth_candidate stride c n = Some x -> nth_candidate stride c m = Some y ->
  x < y.
Proof.
  intros Hc Hnm Hx Hy.
  replace m with (n + (m - n))%nat in Hy by lia.
  rewrite nth_candidate_add, Hx in Hy.
  pose proof (nth_candidate_lower c x n Hc Hx).
  pose proof (nth_candidate_lower x y (m - n) ltac:(nia) Hy). nia.
Qed.

(** Two trajectories that meet have met all along: the later one passes
    through the start of the other. *)
Lemma trajectories_meet (a b x : Z) (m n : nat) :
  0 < a -> 0 < b -> (m <= n)%nat ->
  nth_candidate stride a m = Some x -> nth_candidate stride b n = Some x ->
  nth_candidate stride b (n - m) = Some a.
Proof.
  intros Ha Hb. revert n x. induction m as [|m IH]; intros n x Hmn Hx Hy.
  - cbn [nth_candidate] in Hx. injection Hx as <-.
    now rewrite Nat.sub_0_r.
  - destruct n as [|n]; [lia|].
    rewrite nth_candidate_succ_r in Hx, Hy.
    destruct (nth_candidate stride a m) as [x'|] eqn:Ex; [|discriminate].
    destruct (nth_candidate stride b n) as [y'|] eqn:Ey; [|discriminate].
    pose proof (nth_candidate_lower a x' m Ha Ex).
    pose proof (nth_candidate_lower b y' n Hb Ey).
    assert (x' = y') by (apply (advance_inj x' y' x); trivial; nia).
    subst y'. cbn [Nat.sub]. apply (IH n x'); trivial; lia.
Qed.

Lemma candidates_nth (c c' : Z) (k : nat) (l : list Z) :
  candidates stride c k = Some (l, c') ->
  length l = k /\ nth_candidate stride c k = Some c' /\
  forall i, (i < k)%nat -> nth_candidate stride c i = Some (nth i l 0).
Proof.
  revert c l; induction k as [|k IH]; intros c l; cbn [candidates nth_candidate].
  - intros [= <- <-]. repeat split; intros; lia.
  - destruct (advance stride c) as [next|] eqn:Ha; [|discriminate].
    destruct (candidates stride next k) as [[l' c'']|] eqn:Ec; [|discriminate].
    intros [= <- <-]. destruct (IH next l' Ec) as (Hl & Hn & Hi).
    repeat split; [cbn [length]; lia | exact Hn |].
    intros [|i] Hlt; cbn [nth_candidate nth]; [reflexivity|].
    rewrite Ha. apply Hi; lia.
Qed.

Lemma candidates_sorted (c c' : Z) (k : nat) (l : list Z) :
  0 < c -> candidates stride c k = Some (l, c') ->
  StronglySorted Z.lt l /\ Forall (fun x => c <= x < c') l /\ c <= c'.
Proof.
  revert c l; induction k as [|k IH]; intros c l Hc; cbn [candidates].
  - intros [= <- <-]. repeat split; [constructor | constructor | lia].
  - destruct (advance stride c) as [next|] eqn:Ha; [|discriminate].
    destruct (candidates stride next k) as [[l' c'']|] eqn:Ec; [|discriminate].
    intros [= <- <-]. pose proof (advance_step c next Hc Ha) as Hs.
    destruct (IH next l' ltac:(lia) Ec) as (Hsort & Hall & Hle).
    repeat split; [| |lia].
    + constructor; [exact Hsort|].
      eapply Forall_impl; [|exact Hall]. cbv beta; intros; lia.
    + constructor; [lia|].
      eapply Forall_impl; [|exact Hall]. cbv beta; intros; lia.
Qed.

(** The candidates of a shorter run are the first candidates of a longer
    one: the sequence depends on nothing but the cursor and the stride. *)
Lemma candidates_prefix (c c1 c2 : Z) (k1 k2 : nat) (l1 l2 : list Z) :
  (k1 <= k2)%nat ->
  candidates stride c k1 = Some (l1, c1) ->
  candidates stride c k2 = Some (l2, c2) ->
  l1 = firstn k1 l2.
Proof.
  revert c k2 l1 l2; induction k1 as [|k1 IH]; intros c k2 l1 l2 Hle;
    cbn [candidates].
  - intros [= <- <-] _. reflexivity.
  - destruct k2 as [|k2]; [lia|]. cbn [candidates].
    destruct (advance stride c) as [next|]; [|discriminate].
    destruct (candidates stride next k1) as [[l1' c1']|] eqn:E1; [|discriminate].
    destruct (candidates stride next k2) as [[l2' c2']|] eqn:E2; [|discriminate].
    intros [= <- <-] [= <- <-]. cbn [firstn]. f_equal.
    apply (IH next k2); trivial; lia.
Qed.

End SequenceGenerator.

Section WorkerLoop.

Lemma last_cons {A} (a d : A) (l : list A) : last (a :: l) d = last l a.
Proof.
  revert a d; induction l as [|b l IH]; intros a d; [reflexivity|].
  change (last (a :: b :: l) d) with (last (b :: l) d).
  rewrite !IH. reflexivity.
Qed.

Lemma last_In {A} (d : A) (l : list A) : l <> [] -> In (last l d) l.
Proof.
  destruct l as [|a l]; [congruence | intros _].
  rewrite last_cons. revert a; induction l as [|b l IH]; intros a.
  - left; reflexivity.
  - rewrite last_cons. right. apply IH.
Qed.

Lemma sorted_last_max (d : Z) (l : list Z) :
  StronglySorted Z.lt l -> forall x, In x l -> x <= last l d.
Proof.
  intros Hs; revert d; induction Hs as [|a l Hs IH Ha]; intros d x Hx.
  - destruct Hx.
  - rewrite last_cons. destruct Hx as [<-|Hx]; [|apply IH, Hx].
    destruct l as [|b l]; [cbn; lia|].
    pose proof (last_In a (b :: l) ltac:(discriminate)) as Hin.
    rewrite Forall_forall in Ha. specialize (Ha _ Hin). lia.
Qed.

Lemma sorted_filter (f : Z -> bool) (l : list Z) :
  StronglySorted Z.lt l -> StronglySorted Z.lt (filter f l).
Proof.
  induction 1 as [|a l Hs IH Ha]; cbn [filter]; [constructor|].
  destruct (f a); [|exact IH].
  constructor; [exact IH|].
  rewrite Forall_forall in *. intros x Hx. apply filter_In in Hx. apply Ha, Hx.
Qed.

Lemma test_candidate_cursor (st : slice_state) :
  current_num (test_candidate st) = current_num st.
Proof. unfold test_candidate. destruct (is_prime (current_num st)); reflexivity. Qed.

(** A completed slice tested a run of consecutive candidates, counted the
    primes among them and kept the last one. *)
Lemma time_slice_spec (stride : Z) (start_time : float) (clock : list float) :
  forall st st' clock',
  time_slice stride start_time clock st = Done (st', clock') ->
  exists tested,
    candidates stride (current_num st) (length tested)
      = Some (tested, current_num st') /\
    count st' = count st + Z.of_nat (length (filter is_prime tested)) /\
    max_found st' = last (filter is_prime tested) (max_found st) /\
    length clock = (length tested + 1 + length clock')%nat.
Proof.
  induction clock as [|now clock IH]; intros st st' clock'; cbn [time_slice].
  - discriminate.
  - destruct (SFltb (float_sub now start_time) slice_seconds).
    + rewrite test_candidate_cursor.
      destruct (advance stride (current_num st)) as [next|] eqn:Ha; [|discriminate].
      intros Hrun. apply IH in Hrun. cbn [current_num count max_found] in Hrun.
      destruct Hrun as (tested & Hc & Hn & Hm & Hl).
      exists (current_num st :: tested).
      cbn [length candidates filter]. rewrite Ha, Hc.
      unfold test_candidate in Hn, Hm.
      destruct (is_prime (current_num st)); cbn [count max_found] in Hn, Hm;
        cbn [length]; rewrite ?last_cons; repeat split; trivial; lia.
    + intros [= <- <-]. exists []. cbn. repeat split; lia.
Qed.

Lemma slice_report_some (worker_id : Z) (st : slice_state) (r : Report.t) :
  slice_report worker_id st = Some r ->
  r = Report.mk worker_id (count st) (max_found st) /\
  (0 < count st \/ 0 < max_found st).
Proof.
  unfold slice_report.
  destruct (Z.ltb_spec 0 (count st)); destruct (Z.ltb_spec 0 (max_found st));
    cbn [orb]; intros [= <-]; split; trivial; lia.
Qed.

End WorkerLoop.

Section CompletedSlices.

Variables worker_id stride : Z.

(** A slice whose clock passes 0.2 s ends, having tested one candidate for
    each reading before that. *)
Lemma time_slice_completed (s : slice_readings) (rest : list float) :
  completed s ->
  forall st tested cursor,
  candidates stride (current_num st) (length (within s)) = Some (tested, cursor) ->
  time_slice stride (at_start s) (within s ++ past s :: rest) st
  = Done ({| current_num := cursor;
             count := count st + Z.of_nat (length (filter is_prime tested));
             max_found := last (filter is_prime tested) (max_found st) |},
          rest).
Proof.
destruct s as [start_time early late]. unfold completed. cbn [at_start within past].
intros [Hearly Hlate].
induction Hearly as [|now early Hnow _ IH]; intros st tested cursor Hc.
- cbn [length candidates] in Hc. injection Hc as <- <-.
  cbn [app time_slice]. rewrite Hlate. cbn [filter length last].
  rewrite Z.add_0_r. destruct st; reflexivity.
- cbn [length candidates] in Hc.
  destruct (advance stride (current_num st)) as [next|] eqn:Ha; [|discriminate].
  destruct (candidates stride next (length early)) as [[l c]|] eqn:Ec; [|discriminate].
  injection Hc as <- <-.
  cbn [app time_slice]. rewrite Hnow, test_candidate_cursor, Ha.
  rewrite (IH _ l c) by exact Ec.
  unfold test_candidate. cbn [filter].
  destruct (is_prime (current_num st)); cbn [current_num count max_found length];
    rewrite ?last_cons; do 2 f_equal; f_equal; lia.
Qed.

(** While every reading is within 0.2 s of the start the slice does not
    end. *)
Lemma time_slice_within (start_time : float) (clock : list float) :
  Forall (fun now => SFltb (float_sub now start_time) slice_seconds = true) clock ->
  forall st,
  time_slice stride start_time clock st = Starved \/
  time_slice stride start_time clock st = Raised.
Proof.
induction 1 as [|now clock Hnow _ IH]; intros st; cbn [time_slice].
- left; reflexivity.
- rewrite Hnow. destruct (advance stride _) as [next|]; [apply IH | right; reflexivity].
Qed.

(** Lines 51-56 do what the spec says of the end of a slice. *)
Lemma put_slice_report (queue : list Report.t) (tested : list Z) (cursor : Z) :
  put queue
    (slice_report worker_id
       {| current_num := cursor;
          count := 0 + Z.of_nat (length (filter is_prime tested));
          max_found := last (filter is_prime tested) 0 |})
  = queue ++ BatchReport_spec worker_id tested.
Proof.
unfold slice_report, BatchReport_spec. cbn [count max_found]. rewrite Z.add_0_l.
destruct (filter is_prime tested) as [|p primes] eqn:Ep.
- cbn. rewrite app_nil_r. reflexivity.
- assert (0 < Z.of_nat (length (p :: primes))) as Hpos by (cbn [length]; lia).
  apply Z.ltb_lt in Hpos as Hlt. rewrite Hlt. cbn [orb put].
  destruct (Z.eqb_spec (Z.of_nat (length (p :: primes))) 0); [lia | reflexivity].
Qed.

(** One completed slice of the outer loop. *)
Lemma worker_loop_slice (s : slice_readings) (flags : list bool)
    (clock : list float) (current cursor : Z) (tested : list Z)
    (queue : list Report.t) :
  completed s ->
  candidates stride current (length (within s)) = Some (tested, cursor) ->
  worker_loop worker_id stride (false :: flags) (slice_clock s ++ clock)
    current queue
  = worker_loop worker_id stride flags clock cursor
      (queue ++ BatchReport_spec worker_id tested).
Proof.
intros Hs Hc. unfold slice_clock.
cbn [app worker_loop]. rewrite <- app_assoc. cbn [app].
rewrite (time_slice_completed s clock Hs _ tested cursor) by exact Hc.
cbn [current_num count max_found]. rewrite put_slice_report. reflexivity.
Qed.

Lemma candidates_split (l1 l2 : list Z) :
  forall c c2,
  candidates stride c (length (l1 ++ l2)) = Some (l1 ++ l2, c2) ->
  exists c1,
    candidates stride c (length l1) = Some (l1, c1) /\
    candidates stride c1 (length l2) = Some (l2, c2).
Proof.
induction l1 as [|x l1 IH]; intros c c2; cbn [app length candidates].
- intros H. exists c. split; [reflexivity | exact H].
- destruct (advance stride c) as [next|]; [|discriminate].
  destruct (candidates stride next (length (l1 ++ l2))) as [[l c']|] eqn:E;
    [|discriminate].
  intros [= Hx Hl Hc']. subst c l c'. destruct (IH _ _ E) as (c1 & H1 & H2).
  exists c1. rewrite H1. split; [reflexivity | exact H2].
Qed.

(** Any number of completed slices: the loop goes on from the cursor after
    them, with their reports on the queue. *)
Lemma worker_loop_slices (slices : list slice_readings) (chunks : list (list Z)) :
  Forall completed slices ->
  Forall2 (fun s tested => length (within s) = length tested) slices chunks ->
  forall flags clock current cursor queue,
  candidates stride current (length (concat chunks)) = Some (concat chunks, cursor) ->
  worker_loop worker_id stride (repeat false (length slices) ++ flags)
    (concat (map slice_clock slices) ++ clock) current queue
  = worker_loop worker_id stride flags clock cursor
      (queue ++ flat_map (BatchReport_spec worker_id) chunks).
Proof.
intros Hdone Hlen. induction Hlen as [|s tested slices chunks Hl _ IH];
  intros flags clock current cursor queue Hc.
- cbn [concat length candidates] in Hc. injection Hc as <-.
  cbn. rewrite app_nil_r. reflexivity.
- inversion Hdone as [|? ? Hs Hrest]; subst.
  cbn [concat] in Hc. apply candidates_split in Hc.
  destruct Hc as (mid & H1 & H2).
  cbn [length repeat map concat flat_map app]. rewrite <- app_assoc.
  rewrite (worker_loop_slice s _ _ current mid tested) by (trivial; rewrite Hl; exact H1).
  rewrite (IH Hrest _ _ _ _ _ H2), app_assoc. reflexivity.
Qed.

(** Readings that complete no slice add nothing to the queue, and the loop
    returns on them only by reading the flag as set. *)
Lemma worker_loop_no_slice (flags : list bool) (clock : list float)
    (current : Z) (queue : list Report.t) :
  completes_no_slice flags clock ->
  snd (worker_loop worker_id stride flags clock current queue) = queue /\
  (fst (worker_loop worker_id stride flags clock current queue) = Returned <->
   exists rest, flags = true :: rest).
Proof.
destruct flags as [|[|] flags]; cbn [completes_no_slice worker_loop fst snd].
- intros _. split; [reflexivity|]. split; [discriminate | intros [? [=]]].
- intros _. split; [reflexivity|]. split; eauto.
- destruct clock as [|start_time clock1]; cbn [fst snd].
  + intros _. split; [reflexivity|]. split; [discriminate | intros [? [=]]].
  + intros Hin. destruct (time_slice_within start_time clock1 Hin
                            {| current_num := current; count := 0; max_found := 0 |})
      as [-> | ->]; cbn [fst snd];
      (split; [reflexivity|]; split; [discriminate | intros [? [=]]]).
Qed.

End CompletedSlices.


(** C3: for a pool of [N >= 1] workers, the candidate sequences of two
    distinct workers [i] and [j] of [0, N) never share an integer. *)
Theorem trajectories_disjoint (N i j : Z) (m n : nat) (x y : Z) :
  1 <= N -> 0 <= i < N -> 0 <= j < N -> i <> j ->
  nth_candidate N (100 + i) m = Some x ->
  nth_candidate N (100 + j) n = Some y ->
  x <> y.
Proof.
  intros HN Hi Hj Hij Hx Hy ->.
  assert (forall a b p q,
             0 <= a < N -> 0 <= b < N -> a <> b -> (p <= q)%nat ->
             nth_candidate N (100 + a) p = Some y ->
             nth_candidate N (100 + b) q = Some y -> False) as Hmeet.
  { intros a b p q Ha Hb Hab Hpq Hp Hq.
    pose proof (trajectories_meet N HN (100 + a) (100 + b) y p q
                  ltac:(lia) ltac:(lia) Hpq Hp Hq) as Hback.
    pose proof (nth_candidate_lower N HN (100 + b) (100 + a) (q - p)
                  ltac:(lia) Hback) as Hlow.
    destruct (q - p)%nat as [|d] eqn:Ed.
    - cbn [nth_candidate] in Hback.
      assert (100 + b = 100 + a) by congruence. lia.
    - nia. }
  destruct (Nat.le_ge_cases m n) as [Hle|Hle].
  - exact (Hmeet i j m n Hi Hj Hij Hle Hx Hy).
  - exact (Hmeet j i n m Hj Hi (not_eq_sym Hij) Hle Hy Hx).
Qed.

(** C8: from a cursor [current >= 1] with a stride of at least 1 the
    candidate sequence is strictly increasing, and it is a function of the
    cursor and the stride alone: whatever the clock and the counters of a
    slice, the slice leaves the cursor on that sequence. *)
Theorem sequence_deterministic_increasing (stride current : Z) :
  1 <= current -> 1 <= stride ->
  (forall n m x y, (n < m)%nat ->
     nth_candidate stride current n = Some x ->
     nth_candidate stride current m = Some y -> x < y) /\
  (forall stride' current' n, stride' = stride -> current' = current ->
     nth_candidate stride' current' n = nth_candidate stride current n) /\
  (forall start_time clock clock' count0 max0 st',
     time_slice stride start_time clock
       {| current_num := current; count := count0; max_found := max0 |}
       = Done (st', clock') ->
     exists k, nth_candidate stride current k = Some (current_num st')) /\
  (forall n x, nth_candidate stride current n = Some x -> x < 2 ^ 1023 ->
     exists y, nth_candidate stride current (S n) = Some y).
Proof.
  intros Hc Hs. repeat split.
  - intros n m x y Hnm Hx Hy.
    exact (nth_candidate_increasing stride Hs current x y n m ltac:(lia) Hnm Hx Hy).
  - intros stride' current' n -> ->. reflexivity.
  - intros start_time clock clock' count0 max0 st' Hrun.
    apply time_slice_spec in Hrun. destruct Hrun as (tested & Hcand & _).
    exists (length tested). cbn [current_num] in Hcand.
    apply (candidates_nth stride) in Hcand. tauto.
  - intros n x Hx Hlt. rewrite nth_candidate_succ_r, Hx.
    pose proof (nth_candidate_lower stride Hs current x n ltac:(lia) Hx).
    destruct (growth_defined x ltac:(nia)) as [g Hg].
    unfold advance. rewrite Hg. eauto.
Qed.

(** C10: below 20000000 the growth term is 0, the cursor advances by the
    stride alone and keeps its residue modulo the stride; a worker's residue
    can first change at 20000000, where the growth term is 1. *)
Theorem growth_zero_below_threshold (stride current : Z) :
  0 < current < 20000000 ->
  growth current = Some 0 /\
  advance stride current = Some (current + stride) /\
  (current + stride) mod stride = current mod stride /\
  (forall start n, 0 < start -> 1 <= stride ->
     nth_candidate stride start n = Some current ->
     current = start + Z.of_nat n * stride /\
     current mod stride = start mod stride) /\
  growth 20000000 = Some 1.
Proof.
  intros Hc.
  assert (forall c, 0 < c < 20000000 -> growth c = Some 0) as Hzero.
  { intros c Hr. rewrite growth_exact by lia. f_equal. apply Z.div_small; lia. }
  split; [apply Hzero, Hc|].
  split; [unfold advance; rewrite (Hzero _ Hc); f_equal; lia|].
  split; [replace (current + stride) with (current + 1 * stride) by lia;
          apply Z_mod_plus_full|].
  split; [|apply (growth_exact 20000000); lia].
  intros start n Hstart Hs. revert start Hstart.
  induction n as [|n IH]; intros start Hstart; cbn [nth_candidate].
  - intros [= <-]. split; [lia | reflexivity].
  - destruct (advance stride start) as [next|] eqn:Ha; [|discriminate].
    intros Hn. pose proof (advance_step stride start next Hstart Ha) as Hstep.
    pose proof (nth_candidate_lower stride Hs next current n ltac:(lia) Hn) as Hlow.
    assert (next = start + stride) as ->.
    { unfold advance in Ha. rewrite Hzero in Ha by nia. injection Ha as <-. lia. }
    destruct (IH (start + stride) ltac:(lia) Hn) as [-> Hmod].
    split; [lia|].
    rewrite Hmod. replace (start + stride) with (start + 1 * stride) by lia.
    apply Z_mod_plus_full.
Qed.

(** C4, as amended: for a cursor below 9007199259999999 the growth term is
    the exact quotient [current / 20000000], and whenever the growth term is
    defined the cursor advances by exactly [stride + growth]. *)
Theorem growth_exact_until_rounding (stride current : Z) :
  (0 < current < 9007199259999999 ->
   growth current = Some (current / 20000000) /\
   advance stride current = Some (current + (stride + current / 20000000))) /\
  (forall g, growth current = Some g ->
     advance stride current = Some (current + (stride + g))).
Proof.
  assert (forall g, growth current = Some g ->
            advance stride current = Some (current + (stride + g))) as Hadv
    by (intros g Hg; unfold advance; rewrite Hg; reflexivity).
  split; [|exact Hadv].
  intros Hc.
  assert (growth current = Some (current / 20000000)) as Hg.
  { destruct (Z_lt_le_dec current (2 ^ 53)) as [Hlt|Hge].
    - apply growth_exact; lia.
    - (* between 2^53 and the first error the quotient is constant, and so
         is the growth term, being monotone *)
      assert (current / 20000000 = 450359962) as ->.
      { pose proof (Z.div_mod current 20000000 ltac:(lia)).
        pose proof (Z.mod_pos_bound current 20000000 ltac:(lia)). lia. }
      assert (growth (2 ^ 53 - 1) = Some 450359962) as Hlo
        by (rewrite growth_exact by lia; reflexivity).
      assert (growth 9007199259999998 = Some 450359962) as Hhi
        by (vm_compute; reflexivity).
      destruct (growth_defined current ltac:(lia)) as [g Hg].
      pose proof (growth_mono (2 ^ 53 - 1) current 450359962 g ltac:(lia) Hlo Hg).
      pose proof (growth_mono current 9007199259999998 g 450359962 ltac:(lia) Hg Hhi).
      rewrite Hg. f_equal. lia. }
  split; [exact Hg | apply Hadv, Hg].
Qed.

(** C4 as stated fails: at 9007199259999999 the conversion to binary64
    rounds the cursor up to 9007199260000000 and the growth term is one more
    than the exact quotient. *)
Lemma growth_not_exact :
  0 < 9007199259999999 /\
  growth 9007199259999999 = Some 450359963 /\
  9007199259999999 / 20000000 = 450359962 /\
  growth 9007199259999999 <> Some (9007199259999999 / 20000000).
Proof.
  assert (growth 9007199259999999 = Some 450359963) as Hg by (vm_compute; reflexivity).
  assert (9007199259999999 / 20000000 = 450359962) as Hd by reflexivity.
  split; [reflexivity|]. split; [exact Hg|]. split; [exact Hd|].
  rewrite Hg, Hd. discriminate.
Qed.

Section Aggregator.

Lemma gtb_max (a b : Z) : (if a >? b then a else b) = Z.max a b.
Proof. destruct (Z.gtb_spec a b); lia. Qed.

Lemma absorb_highest (s : Stats.t) (r : Report.t) :
  Stats.highest (absorb s r) = Z.max (Report.highest r) (Stats.highest s).
Proof. unfold absorb; cbn [Stats.highest]. apply gtb_max. Qed.

Lemma absorb_total (s : Stats.t) (r : Report.t) :
  Stats.total (absorb s r) = Stats.total s + Report.count r.
Proof. reflexivity. Qed.

Lemma drain_app (s : Stats.t) (a b : list Report.t) :
  drain s (a ++ b) = drain (drain s a) b.
Proof. apply fold_left_app. Qed.

Lemma drain_highest (rs : list Report.t) (s : Stats.t) :
  Stats.highest (drain s rs)
  = fold_right Z.max (Stats.highest s) (map Report.highest rs).
Proof.
  revert s; induction rs as [|r rs IH]; intros s; [reflexivity|].
  cbn [drain fold_left map fold_right]. fold (drain (absorb s r) rs).
  rewrite IH, absorb_highest.
  clear IH. induction rs as [|r' rs IH]; cbn [map fold_right]; [reflexivity|].
  rewrite IH. lia.
Qed.

Lemma drain_highest_le (rs : list Report.t) (s : Stats.t) :
  Stats.highest s <= Stats.highest (drain s rs).
Proof.
  rewrite drain_highest.
  induction rs as [|r rs IH]; cbn [map fold_right]; lia.
Qed.

Lemma drain_total_le (rs : list Report.t) (s : Stats.t) :
  Forall (fun r => 0 <= Report.count r) rs ->
  Stats.total s <= Stats.total (drain s rs).
Proof.
  intros Hall; revert s; induction Hall as [|r rs Hr _ IH]; intros s.
  - cbn. lia.
  - cbn [drain fold_left]. fold (drain (absorb s r) rs).
    specialize (IH (absorb s r)). rewrite absorb_total in IH. lia.
Qed.

(** Draining the queue leaves the speed alone. *)
Lemma drain_speed (rs : list Report.t) (s : Stats.t) :
  Stats.speed (drain s rs) = Stats.speed s.
Proof.
  revert s; induction rs as [|r rs IH]; intros s; [reflexivity|].
  cbn [drain fold_left]. fold (drain (absorb s r) rs). now rewrite IH.
Qed.

Lemma absorb_swap (s : Stats.t) (x y : Report.t) :
  absorb (absorb s x) y = absorb (absorb s y) x.
Proof.
  unfold absorb; cbn [Stats.total Stats.speed Stats.highest Stats.threads Stats.running].
  rewrite !gtb_max. f_equal; lia.
Qed.

Lemma drain_perm (rs rs' : list Report.t) :
  Permutation rs rs' -> forall s, drain s rs = drain s rs'.
Proof.
  induction 1 as [|r l l' _ IH|x y l|l l' l'' _ IH1 _ IH2]; intros s.
  - reflexivity.
  - cbn [drain fold_left]. apply IH.
  - cbn [drain fold_left]. now rewrite absorb_swap.
  - now rewrite IH1.
Qed.

End Aggregator.

(** C5: folding reports never lowers [highest], which is at every point the
    maximum of 0 and the [highest] of the reports folded so far; and it never
    lowers [total], the counts of the reports being counts of primes. *)
Theorem aggregate_monotone
    (CORE_COUNT : Z) (stats : Stats.t) (data : Report.t)
    (before after : list Report.t) :
  Stats.highest stats <= Stats.highest (absorb stats data) /\
  Stats.highest (drain stats before) <= Stats.highest (drain stats (before ++ after)) /\
  Stats.highest (drain (initial_stats CORE_COUNT) before)
    = fold_right Z.max 0 (map Report.highest before) /\
  (0 <= Report.count data -> Stats.total stats <= Stats.total (absorb stats data)) /\
  (Forall (fun r => 0 <= Report.count r) after ->
   Stats.total (drain stats before) <= Stats.total (drain stats (before ++ after))).
Proof.
  split; [rewrite absorb_highest; lia|].
  split; [rewrite drain_app; apply drain_highest_le|].
  split; [apply drain_highest|].
  split; [rewrite absorb_total; lia|].
  intros Hall. rewrite drain_app. apply drain_total_le, Hall.
Qed.

(** C6: two orderings of the same reports leave the same [total] and the
    same [highest]. *)
Theorem drain_commutative (stats : Stats.t) (reports reports' : list Report.t) :
  Permutation reports reports' ->
  Stats.total (drain stats reports) = Stats.total (drain stats reports') /\
  Stats.highest (drain stats reports) = Stats.highest (drain stats reports').
Proof.
  intros Hp. rewrite (drain_perm _ _ Hp stats). split; reflexivity.
Qed.

(** C7: a tick recomputes [speed] exactly when a second has elapsed since
    the last boundary; it is then the total minus the total recorded at that
    boundary, and the baseline becomes the current total; otherwise [speed]
    and the baseline are left as they were. *)
Theorem speed_recomputed_at_boundary
    (st : main_state) (pending : list Report.t) (now : float) :
  Stats.total (stats (tick st pending now))
    = Stats.total (drain (stats st) pending) /\
  (boundary st now = true ->
   Stats.speed (stats (tick st pending now))
     = Stats.total (stats (tick st pending now)) - last_total_primes st /\
   last_total_primes (tick st pending now)
     = Stats.total (stats (tick st pending now)) /\
   last_check_time (tick st pending now) = now) /\
  (boundary st now = false ->
   Stats.speed (stats (tick st pending now)) = Stats.speed (stats st) /\
   last_total_primes (tick st pending now) = last_total_primes st /\
   last_check_time (tick st pending now) = last_check_time st).
Proof.
  unfold tick. destruct (boundary st now); cbn [stats last_total_primes last_check_time Stats.total Stats.speed].
  - repeat split; intros; try discriminate; reflexivity.
  - repeat split; intros; try discriminate; try reflexivity.
    apply drain_speed.
Qed.

Section Lifecycle.

Variables worker_id stride : Z.
Hypothesis stride_pos : 1 <= stride.

(** The loop returns only where it reads the flag as set. *)
Lemma worker_loop_returned (flags : list bool) :
  forall clock current queue queue',
  worker_loop worker_id stride flags clock current queue = (Returned, queue') ->
  exists pre rest,
    flags = pre ++ true :: rest /\ Forall (eq false) pre /\
    (length queue' <= length queue + length pre)%nat.
Proof.
  induction flags as [|flag flags IH]; intros clock current queue queue';
    cbn [worker_loop].
  - discriminate.
  - destruct flag.
    + intros [= <-]. exists [], flags. repeat split; [constructor | cbn; lia].
    + destruct clock as [|start_time clock1]; [discriminate|].
      destruct (time_slice _ _ _ _) as [[st clock2]| |]; try discriminate.
      intros Hrun. apply IH in Hrun.
      destruct Hrun as (pre & rest & -> & Hpre & Hlen).
      exists (false :: pre), rest. repeat split; [constructor; trivial|].
      assert (length (put queue (slice_report worker_id st)) <= S (length queue))%nat.
      { destruct (slice_report worker_id st); cbn [put];
          rewrite ?length_app; cbn [length]; lia. }
      cbn [length]. lia.
Qed.

(** What the flag reads after it was first read as set does not matter. *)
Lemma worker_loop_stops (pre rest : list bool) :
  forall clock current queue,
  worker_loop worker_id stride (pre ++ true :: rest) clock current queue
  = worker_loop worker_id stride (pre ++ [true]) clock current queue.
Proof.
  induction pre as [|flag pre IH]; intros clock current queue;
    cbn [app worker_loop]; [reflexivity|].
  destruct flag; [reflexivity|].
  destruct clock as [|start_time clock1]; [reflexivity|].
  destruct (time_slice _ _ _ _) as [[st clock2]| |]; try reflexivity.
  apply IH.
Qed.

Lemma advance_none (c : Z) : advance stride c = None <-> growth c = None.
Proof. unfold advance. destruct (growth c); split; congruence. Qed.

(** A slice that raises reached a candidate whose growth term overflows. *)
Lemma time_slice_raised (start_time : float) (clock : list float) :
  forall st,
  time_slice stride start_time clock st = Raised ->
  exists k x, nth_candidate stride (current_num st) k = Some x /\ growth x = None.
Proof.
  induction clock as [|now clock IH]; intros st; cbn [time_slice].
  - discriminate.
  - destruct (SFltb (float_sub now start_time) slice_seconds); [|discriminate].
    rewrite test_candidate_cursor.
    destruct (advance stride (current_num st)) as [next|] eqn:Ha.
    + intros Hrun. apply IH in Hrun. cbn [current_num] in Hrun.
      destruct Hrun as (k & x & Hk & Hg).
      exists (S k), x. cbn [nth_candidate]. rewrite Ha. tauto.
    + intros _. exists 0%nat, (current_num st). split; [reflexivity|].
      apply advance_none, Ha.
Qed.

Lemma worker_loop_crashed (flags : list bool) :
  forall clock current queue queue',
  worker_loop worker_id stride flags clock current queue = (Crashed, queue') ->
  exists k x, nth_candidate stride current k = Some x /\ growth x = None.
Proof.
  induction flags as [|flag flags IH]; intros clock current queue queue';
    cbn [worker_loop].
  - discriminate.
  - destruct flag; [discriminate|].
    destruct clock as [|start_time clock1]; [discriminate|].
    destruct (time_slice _ _ _ _) as [[st clock2]| |] eqn:Hslice; try discriminate.
    + intros Hrun. apply IH in Hrun. destruct Hrun as (k & x & Hk & Hg).
      apply time_slice_spec in Hslice. cbn [current_num] in Hslice.
      destruct Hslice as (tested & Hcand & _).
      apply (candidates_nth stride) in Hcand. destruct Hcand as (_ & Hn & _).
      exists (length tested + k)%nat, x.
      rewrite nth_candidate_add, Hn. tauto.
    + intros _. apply time_slice_raised in Hslice. exact Hslice.
Qed.

(** Every report a worker puts on the queue is a valid one. *)
Lemma slice_report_valid (start_time : float) (clock clock' : list float)
    (current : Z) (st : slice_state) (r : Report.t) :
  time_slice stride start_time clock
    {| current_num := current; count := 0; max_found := 0 |} = Done (st, clock') ->
  slice_report worker_id st = Some r -> valid_report worker_id r.
Proof.
  intros Hrun Hr. apply time_slice_spec in Hrun.
  cbn [current_num count max_found] in Hrun.
  destruct Hrun as (tested & _ & Hn & Hm & _).
  apply slice_report_some in Hr. destruct Hr as [-> Hr].
  unfold valid_report; cbn [Report.id Report.count Report.highest].
  remember (filter is_prime tested) as primes eqn:Ep.
  assert (primes <> []) as Hne
    by (destruct primes; [cbn [length last] in *; lia | discriminate]).
  split; [reflexivity|]. split; [destruct primes; cbn [length] in *; [congruence | lia]|].
  pose proof (last_In 0 primes Hne) as Hin.
  rewrite Ep in Hin at 2. apply filter_In in Hin. rewrite Hm. tauto.
Qed.

Lemma worker_loop_reports (flags : list bool) :
  forall clock current queue status queue',
  worker_loop worker_id stride flags clock current queue = (status, queue') ->
  exists sent, queue' = queue ++ sent /\ Forall (valid_report worker_id) sent.
Proof.
  induction flags as [|flag flags IH]; intros clock current queue status queue';
    cbn [worker_loop].
  - intros [= _ <-]. exists []. rewrite app_nil_r. split; [reflexivity | constructor].
  - assert (forall e, (e, queue) = (status, queue') ->
              exists sent, queue' = queue ++ sent /\ Forall (valid_report worker_id) sent) as Hsame.
    { intros e [= _ <-]. exists []. rewrite app_nil_r. split; [reflexivity | constructor]. }
    destruct flag; [apply Hsame|].
    destruct clock as [|start_time clock1]; [apply Hsame|].
    destruct (time_slice _ _ _ _) as [[st clock2]| |] eqn:Hslice; try apply Hsame.
    intros Hrun. apply IH in Hrun. destruct Hrun as (sent & -> & Hsent).
    destruct (slice_report worker_id st) as [r|] eqn:Hr; cbn [put].
    + exists (r :: sent). rewrite <- app_assoc. split; [reflexivity|].
      constructor; [|exact Hsent].
      exact (slice_report_valid _ _ _ _ _ _ Hslice Hr).
    + exists sent. split; [reflexivity | exact Hsent].
Qed.

(** With the clock frozen a slice never ends: it advances the cursor until
    the growth term overflows. *)
Lemma frozen_slice (n : nat) :
  forall st,
  0 < current_num st -> 2 ^ 1024 <= current_num st + Z.of_nat n ->
  time_slice stride (S754_zero false) (repeat (S754_zero false) (S n)) st = Raised.
Proof.
  induction n as [|n IH]; intros st Hpos Hbig;
    change (repeat (S754_zero false) (S ?k))
      with (S754_zero false :: repeat (S754_zero false) k);
    cbn [time_slice];
    change (SFltb (float_sub (S754_zero false) (S754_zero false)) slice_seconds)
      with true; cbv iota; rewrite test_candidate_cursor.
  - unfold advance. rewrite growth_overflow by lia. reflexivity.
  - destruct (advance stride (current_num st)) as [next|] eqn:Ha; [|reflexivity].
    pose proof (advance_step stride _ _ Hpos Ha).
    apply IH; cbn [current_num]; lia.
Qed.

(** A signal changes nothing for a worker that has returned. *)
Lemma deliver_returned (outside : option signal) (run : exit * list Report.t)
    (queue : list Report.t) :
  deliver outside run = (ByItself Returned, queue) <-> run = (Returned, queue).
Proof.
  destruct run as [[| |] q], outside as [s|]; cbn [deliver];
    split; intros [= <-]; reflexivity.
Qed.

End Lifecycle.



(** What the float product does at the end of the binary64 range: with the
    flag never read as set and a clock that stands still, the cursor of
    worker 0 of a pool of one grows until [current_num * 0.00000005] raises
    [OverflowError], which leaves [worker_process]. *)
Lemma worker_crashes_flag_unset :
  worker_process 0 1 [false] (repeat (S754_zero false) (Z.to_nat (2 ^ 1024 + 2)))
  = (Crashed, []).
Proof.
  assert (forall n, 2 ^ 1024 <= 100 + Z.of_nat n ->
            worker_process 0 1 [false] (repeat (S754_zero false) (S (S n)))
            = (Crashed, [])) as Hcrash.
  { intros n Hn. unfold worker_process.
    change (repeat (S754_zero false) (S (S n)))
      with (S754_zero false :: repeat (S754_zero false) (S n)).
    cbn [worker_loop].
    rewrite frozen_slice; [reflexivity | cbn [current_num]; lia ..]. }
  assert (0 < 2 ^ 1024) by (apply Z.pow_pos_nonneg; lia).
  replace (Z.to_nat (2 ^ 1024 + 2)) with (S (S (Z.to_nat (2 ^ 1024)))) by lia.
  apply Hcrash. lia.
Qed.

(* ================================================================== *)
(** * Part III: the theorems at concrete inputs *)
(* ================================================================== *)

(** 97 is prime, 100 = 2 * 50 and 9 = 3 * 3 are not. *)
Lemma is_prime_correct_witness :
  Z.prime 97 /\ is_prime 100 = false /\
  exists d, 3 <= d <= Z.sqrt 9 /\ Z.odd d = true /\ (d | 9).
Proof.
  split; [apply (proj1 (proj1 (is_prime_correct 97))); reflexivity|].
  split; [apply (proj1 (proj2 (proj2 (proj2 (is_prime_correct 100))))); [lia | reflexivity]|].
  apply (proj1 (proj2 (proj2 (proj2 (proj2 (is_prime_correct 9))))
                 ltac:(lia) eq_refl)).
  reflexivity.
Defined.


(** In a pool of two, worker 0 reaches 106 and worker 1 reaches 107. *)
Lemma trajectories_disjoint_witness :
  nth_candidate 2 (100 + 0) 3 = Some 106 /\
  nth_candidate 2 (100 + 1) 3 = Some 107 /\ 106 <> 107.
Proof.
  assert (nth_candidate 2 (100 + 0) 3 = Some 106) as H0 by (vm_compute; reflexivity).
  assert (nth_candidate 2 (100 + 1) 3 = Some 107) as H1 by (vm_compute; reflexivity).
  split; [exact H0|]. split; [exact H1|].
  apply (trajectories_disjoint 2 0 1 3 3 106 107); [lia | lia | lia | lia | exact H0 | exact H1].
Defined.

Lemma growth_exact_until_rounding_witness :
  growth 9007199259999998 = Some (9007199259999998 / 20000000) /\
  advance 8 9007199259999998
    = Some (9007199259999998 + (8 + 9007199259999998 / 20000000)).
Proof.
  apply (proj1 (growth_exact_until_rounding 8 9007199259999998)). lia.
Defined.

Lemma aggregate_monotone_witness :
  Stats.total (initial_stats 4)
    <= Stats.total (absorb (initial_stats 4) (Report.mk 0 3 113)) /\
  Stats.total (drain (initial_stats 4) [Report.mk 0 3 113])
    <= Stats.total (drain (initial_stats 4) ([Report.mk 0 3 113] ++ [Report.mk 1 2 109])).
Proof.
  pose proof (aggregate_monotone 4 (initial_stats 4) (Report.mk 0 3 113)
                [Report.mk 0 3 113] [Report.mk 1 2 109]) as (_ & _ & _ & H1 & H2).
  split.
  - apply H1. cbn. lia.
  - apply H2. repeat constructor. cbn. lia.
Defined.

Lemma drain_commutative_witness :
  Stats.total (drain (initial_stats 4) [Report.mk 0 3 113; Report.mk 1 2 109])
  = Stats.total (drain (initial_stats 4) [Report.mk 1 2 109; Report.mk 0 3 113]) /\
  Stats.highest (drain (initial_stats 4) [Report.mk 0 3 113; Report.mk 1 2 109])
  = Stats.highest (drain (initial_stats 4) [Report.mk 1 2 109; Report.mk 0 3 113]).
Proof.
  apply (drain_commutative (initial_stats 4)). apply perm_swap.
Defined.

(** One second after the last boundary the speed becomes the five primes
    received since; half-way through a second it keeps its value. *)
Lemma speed_recomputed_at_boundary_witness :
  Stats.speed (stats (tick {| stats := Stats.mk 7 3 109 4 true;
                              last_check_time := S754_zero false;
                              last_total_primes := 7 |}
                           [Report.mk 0 5 131] one_second)) = 12 - 7 /\
  Stats.speed (stats (tick {| stats := Stats.mk 7 3 109 4 true;
                              last_check_time := S754_zero false;
                              last_total_primes := 7 |}
                           [Report.mk 0 5 131] slice_seconds)) = 3.
Proof.
  split.
  - apply (proj1 (proj2 (speed_recomputed_at_boundary
                           {| stats := Stats.mk 7 3 109 4 true;
                              last_check_time := S754_zero false;
                              last_total_primes := 7 |}
                           [Report.mk 0 5 131] one_second))).
    reflexivity.
  - apply (proj2 (proj2 (speed_recomputed_at_boundary
                           {| stats := Stats.mk 7 3 109 4 true;
                              last_check_time := S754_zero false;
                              last_total_primes := 7 |}
                           [Report.mk 0 5 131] slice_seconds))).
    reflexivity.
Defined.

Lemma sequence_deterministic_increasing_witness :
  nth_candidate 4 100 1 = Some 104 /\ nth_candidate 4 100 3 = Some 112 /\
  104 < 112.
Proof.
  assert (nth_candidate 4 100 1 = Some 104) as H1 by (vm_compute; reflexivity).
  assert (nth_candidate 4 100 3 = Some 112) as H3 by (vm_compute; reflexivity).
  split; [exact H1|]. split; [exact H3|].
  apply (proj1 (sequence_deterministic_increasing 4 100 ltac:(lia) ltac:(lia))
           1%nat 3%nat 104 112); [lia | exact H1 | exact H3].
Defined.

Lemma growth_zero_below_threshold_witness :
  growth 19999999 = Some 0 /\ advance 8 19999999 = Some (19999999 + 8).
Proof.
  pose proof (growth_zero_below_threshold 8 19999999 ltac:(lia)) as (H1 & H2 & _).
  split; [exact H1 | exact H2].
Defined.


(* ================================================================== *)
(** * Part IV: further properties of the program *)
(* ================================================================== *)

Section TrialDivisions.

Lemma range_up_length (k : nat) (start step : Z) :
  length (range_up k start step) = k.
Proof.
revert start; induction k as [|k IH]; intros start; cbn [range_up length];
  [reflexivity | now rewrite IH].
Qed.

Lemma trial_division_steps_le (num : Z) (l : list Z) :
  (trial_division_steps num l <= length l)%nat.
Proof.
induction l as [|i l IH]; cbn [trial_division_steps length]; [lia|].
destruct (num mod i =? 0); lia.
Qed.

Lemma trial_division_steps_all (num : Z) (l : list Z) :
  trial_division num l = true -> trial_division_steps num l = length l.
Proof.
induction l as [|i l IH]; cbn [trial_division trial_division_steps length];
  [reflexivity|].
destruct (num mod i =? 0); [discriminate|]. intros H; now rewrite IH.
Qed.

(** The loop stops at the first divisor of the range. *)
Lemma trial_division_steps_first (num start : Z) (k j : nat) :
  (j < k)%nat ->
  (forall i, (i < j)%nat -> num mod (start + 2 * Z.of_nat i) <> 0) ->
  num mod (start + 2 * Z.of_nat j) = 0 ->
  trial_division_steps num (range_up k start 2) = S j.
Proof.
revert start j; induction k as [|k IH]; intros start j Hjk Hbefore Hj; [lia|].
cbn [range_up trial_division_steps].
destruct j as [|j].
- replace (start + 2 * Z.of_nat 0) with start in Hj by lia.
  rewrite Hj. reflexivity.
- pose proof (Hbefore 0%nat ltac:(lia)) as H0.
  replace (start + 2 * Z.of_nat 0) with start in H0 by lia.
  destruct (Z.eqb_spec (num mod start) 0); [contradiction|].
  f_equal. apply IH; [lia| |].
  + intros i Hi. specialize (Hbefore (S i) ltac:(lia)).
    replace (start + 2 + 2 * Z.of_nat i) with (start + 2 * Z.of_nat (S i)) by lia.
    exact Hbefore.
  + replace (start + 2 + 2 * Z.of_nat j) with (start + 2 * Z.of_nat (S j)) by lia.
    exact Hj.
Qed.

(** Below a bound, a decidable property holds nowhere or has a first place. *)
Lemma first_below (P : nat -> bool) (bound : nat) :
  (forall i, (i < bound)%nat -> P i = false) \/
  (exists i, (i < bound)%nat /\ P i = true /\
     forall i', (i' < i)%nat -> P i' = false).
Proof.
induction bound as [|b [Hnone | (i & Hi & Ht & Hleast)]].
- left. intros i Hi. lia.
- destruct (P b) eqn:Eb.
  + right. exists b. split; [lia|]. split; [exact Eb | exact Hnone].
  + left. intros i Hi. destruct (Nat.eq_dec i b) as [->|]; [exact Eb|].
    apply Hnone. lia.
- right. exists i. split; [lia|]. split; assumption.
Qed.

Lemma is_prime_steps_odd (n : Z) :
  2 < n -> Z.odd n = true ->
  is_prime_steps n = trial_division_steps n (range 3 (Z.sqrt n + 1) 2).
Proof.
intros Hn Hodd. unfold is_prime_steps.
destruct (Z.ltb_spec n 2); [lia|].
destruct (Z.eqb_spec n 2); [lia|].
rewrite mod2_odd, Hodd; reflexivity.
Qed.

End TrialDivisions.

(** X1: [is_prime n] evaluates [num % i == 0] at most
    [(isqrt(n) - 1) / 2] times, that many times exactly when [n] is an odd
    prime, and when [n] is an odd composite it stops at the least divisor
    [d > 1] of [n], after [(d - 1) / 2] evaluations. *)
Theorem is_prime_steps_bound (n : Z) :
  (Z.of_nat (is_prime_steps n) <= Z.max 0 ((Z.sqrt n - 1) / 2)) /\
  (2 < n -> is_prime n = true ->
   Z.of_nat (is_prime_steps n) = (Z.sqrt n - 1) / 2) /\
  (2 < n -> Z.odd n = true -> is_prime n = false ->
   exists d, 3 <= d <= Z.sqrt n /\ (d | n) /\
     (forall d', 1 < d' < d -> ~ (d' | n)) /\
     Z.of_nat (is_prime_steps n) = (d - 1) / 2).
Proof.
assert (forall L, length (range 3 (L + 1) 2) = Z.to_nat ((L - 1) / 2)) as Hlen.
{ intros L. unfold range. rewrite range_up_length. f_equal. f_equal. lia. }
split; [|split].
- unfold is_prime_steps.
  destruct (n <? 2); [cbn; lia|]. destruct (n =? 2); [cbn; lia|].
  destruct (n mod 2 =? 0); [cbn; lia|]. cbv zeta.
  pose proof (trial_division_steps_le n (range 3 (Z.sqrt n + 1) 2)) as Hle.
  rewrite Hlen in Hle. lia.
- intros Hn Hp.
  assert (Z.odd n = true) as Hodd.
  { apply is_prime_sound in Hp. destruct (Z.odd n) eqn:E; [reflexivity|].
    destruct Hp as [_ Hp]. exfalso. apply (Hp 2); [lia|].
    apply Z.mod_divide; [lia|]. rewrite Zmod_odd, E. reflexivity. }
  rewrite is_prime_steps_odd by assumption.
  rewrite is_prime_odd in Hp by assumption.
  rewrite (trial_division_steps_all _ _ Hp), Hlen.
  assert (3 <= n) by lia.
  assert (1 <= Z.sqrt n) by (apply Z.sqrt_le_square; lia).
  assert (0 <= (Z.sqrt n - 1) / 2) by (apply Z.div_pos; lia). lia.
- intros Hn Hodd Hf.
  (* the least odd divisor of the range, by strong induction on its index *)
  apply is_prime_odd_false in Hf; [|assumption..].
  destruct Hf as (d0 & Hr0 & Hodd0 & Hdiv0).
  assert (exists j, (forall i, (i < j)%nat -> n mod (3 + 2 * Z.of_nat i) <> 0) /\
                    n mod (3 + 2 * Z.of_nat j) = 0 /\ 3 + 2 * Z.of_nat j <= d0)
    as (j & Hbefore & Hj & Hjd).
  { assert (exists j0, d0 = 3 + 2 * Z.of_nat j0) as [j0 ->].
    { rewrite Zodd_bool_iff in Hodd0. destruct (Zodd_ex _ Hodd0) as [m Hm].
      exists (Z.to_nat (m - 1)). lia. }
    clear Hodd0. apply Z.mod_divide in Hdiv0; [|lia].
    destruct (first_below (fun i => n mod (3 + 2 * Z.of_nat i) =? 0) j0)
      as [Hnone | (i & Hi & Hzero & Hleast)].
    - exists j0. split; [|split; [exact Hdiv0 | lia]].
      intros i Hi. apply Z.eqb_neq, Hnone, Hi.
    - exists i. split; [|split; [apply Z.eqb_eq, Hzero | lia]].
      intros i' Hi'. apply Z.eqb_neq, Hleast, Hi'. }
  exists (3 + 2 * Z.of_nat j). split; [lia|]. split; [apply Z.mod_divide; [lia | exact Hj]|].
  split.
  + intros d' Hd' Hdiv'.
    pose proof (odd_divisor _ _ Hodd Hdiv') as Hodd'.
    rewrite Zodd_bool_iff in Hodd'. destruct (Zodd_ex _ Hodd') as [m Hm].
    apply (Hbefore (Z.to_nat (m - 1))); [lia|].
    replace (3 + 2 * Z.of_nat (Z.to_nat (m - 1))) with d' by lia.
    apply Z.mod_divide; [lia | exact Hdiv'].
  + rewrite is_prime_steps_odd by assumption. unfold range.
    rewrite (trial_division_steps_first n 3 _ j); trivial.
    * replace (3 + 2 * Z.of_nat j - 1) with ((1 + Z.of_nat j) * 2) by lia.
      rewrite Z.div_mul by lia. lia.
    * replace (Z.sqrt n + 1 - 3 + 2 - 1) with (Z.sqrt n - 1) by lia.
      assert (Z.of_nat j + 1 <= (Z.sqrt n - 1) / 2)
        by (apply Z.div_le_lower_bound; lia).
      lia.
Qed.

Section OverflowThreshold.

(** The conversion to binary64 overflows exactly from [2^1024 - 2^970] on,
    the first integer that rounds to [2^1024]. *)
Lemma fpair_overflow (v : Z) :
  0 < v -> (971 < snd (fpair v) <-> 2 ^ 1024 - 2 ^ 970 <= v).
Proof.
intros Hv.
assert (snd (fpair (2 ^ 1024 - 2 ^ 970 - 1)) = 971) as Hlo by (vm_compute; reflexivity).
assert (snd (fpair (2 ^ 1024 - 2 ^ 970)) = 972) as Hhi by (vm_compute; reflexivity).
assert (0 < 2 ^ 1024 - 2 ^ 970 - 1) as Hpos by (vm_compute; reflexivity).
split.
- intros Hbig. destruct (Z_lt_le_dec v (2 ^ 1024 - 2 ^ 970)) as [Hlt|]; [|assumption].
  pose proof (fpair_mono v (2 ^ 1024 - 2 ^ 970 - 1) ltac:(lia)) as Hm.
  unfold pair_le in Hm. lia.
- intros Hge.
  pose proof (fpair_mono (2 ^ 1024 - 2 ^ 970) v ltac:(lia)) as Hm.
  unfold pair_le in Hm. lia.
Qed.

End OverflowThreshold.

(** X2: for a positive cursor the step of the worker raises
    [OverflowError] exactly when the cursor is at least [2^1024 - 2^970],
    and otherwise yields a larger cursor. *)
Theorem advance_overflow_threshold (stride current : Z) :
  0 < current -> 1 <= stride ->
  (advance stride current = None <-> 2 ^ 1024 - 2 ^ 970 <= current) /\
  (current < 2 ^ 1024 - 2 ^ 970 ->
   exists next, advance stride current = Some next /\ current < next).
Proof.
intros Hc Hs.
assert (advance stride current = None <-> 2 ^ 1024 - 2 ^ 970 <= current) as Hiff.
{ rewrite <- fpair_overflow by exact Hc. unfold advance.
  rewrite growth_spec by exact Hc.
  destruct (Z.leb_spec (snd (fpair current)) 971); split; intros; try lia; try discriminate.
  reflexivity. }
split; [exact Hiff|].
intros Hlt. destruct (advance stride current) as [next|] eqn:Ha.
- exists next. split; [reflexivity|].
  pose proof (advance_step stride current next Hc Ha). lia.
- pose proof (proj1 Hiff eq_refl). lia.
Qed.

(** X3: along the sequence of a worker the distance between consecutive
    candidates never shrinks, and it is never below the stride. *)
Theorem effective_stride_grows (stride current : Z) (n : nat) (x y z : Z) :
  0 < current -> 1 <= stride ->
  nth_candidate stride current n = Some x ->
  nth_candidate stride current (S n) = Some y ->
  nth_candidate stride current (S (S n)) = Some z ->
  stride <= y - x <= z - y.
Proof.
intros Hc Hs Hx Hy Hz.
rewrite nth_candidate_succ_r, Hy in Hz.
rewrite nth_candidate_succ_r, Hx in Hy.
pose proof (nth_candidate_lower stride Hs current x n Hc Hx) as Hlow.
apply advance_spec in Hy, Hz.
destruct Hy as (g1 & Hg1 & ->), Hz as (g2 & Hg2 & ->).
pose proof (growth_nonneg x g1 ltac:(nia) Hg1).
pose proof (growth_mono x (x + (stride + g1)) g1 g2 ltac:(nia) Hg1 Hg2).
lia.
Qed.

Section Pool.

Variable N : Z.
Hypothesis N_pos : 1 <= N.

Lemma start_workers_In (w : Z * Z) :
  In w (start_workers N) <-> snd w = N /\ 0 <= fst w < N.
Proof.
unfold start_workers, range. rewrite in_map_iff.
replace ((N - 0 + 1 - 1) / 1) with N by (rewrite Z.div_1_r; lia).
split.
- intros (i & <- & Hi). apply range_up_In in Hi. destruct Hi as (k & Hk & ->).
  cbn [fst snd]. lia.
- intros [Hs Hf]. exists (fst w). split; [destruct w; cbn in *; congruence|].
  apply range_up_In. exists (Z.to_nat (fst w)). lia.
Qed.

Lemma start_workers_length : length (start_workers N) = Z.to_nat N.
Proof.
unfold start_workers, range. rewrite length_map, range_up_length.
f_equal. rewrite Z.div_1_r. lia.
Qed.

(** Two workers of the pool never test the same integer. *)
Lemma pool_disjoint (i j : Z) (m n : nat) (x : Z) :
  0 <= i < N -> 0 <= j < N ->
  nth_candidate N (100 + i) m = Some x ->
  nth_candidate N (100 + j) n = Some x ->
  i = j /\ m = n.
Proof.
intros Hi Hj Hx Hy.
assert (forall a b p q,
           0 <= a < N -> 0 <= b < N -> (p <= q)%nat ->
           nth_candidate N (100 + a) p = Some x ->
           nth_candidate N (100 + b) q = Some x -> a = b /\ p = q) as Hmeet.
{ intros a b p q Ha Hb Hpq Hp Hq.
  pose proof (trajectories_meet N N_pos (100 + a) (100 + b) x p q
                ltac:(lia) ltac:(lia) Hpq Hp Hq) as Hback.
  pose proof (nth_candidate_lower N N_pos (100 + b) (100 + a) (q - p)
                ltac:(lia) Hback) as Hlow.
  destruct (q - p)%nat as [|d] eqn:Ed; [|nia].
  cbn [nth_candidate] in Hback.
  assert (100 + b = 100 + a) by congruence. lia. }
destruct (Nat.le_ge_cases m n) as [Hle|Hle].
- exact (Hmeet i j m n Hi Hj Hle Hx Hy).
- destruct (Hmeet j i n m Hj Hi Hle Hy Hx). split; congruence.
Qed.

(** Until the cursor has passed 20000000 the steps are of the stride. *)
Lemma nth_candidate_below (start : Z) (n : nat) :
  0 < start -> start + Z.of_nat n * N < 20000000 + N ->
  nth_candidate N start n = Some (start + Z.of_nat n * N).
Proof.
intros Hs. induction n as [|n IH]; intros Hb.
- cbn [nth_candidate]. f_equal. lia.
- rewrite nth_candidate_succ_r, IH by nia.
  unfold advance. rewrite growth_exact by nia.
  rewrite Z.div_small by nia. f_equal. lia.
Qed.

(** From 20000000 on the growth term is at least 1. *)
Lemma growth_ge_1 (c g : Z) : 20000000 <= c -> growth c = Some g -> 1 <= g.
Proof.
intros Hc Hg.
assert (growth 20000000 = Some 1) as H1 by (rewrite growth_exact by lia; reflexivity).
exact (growth_mono 20000000 c 1 g ltac:(lia) H1 Hg).
Qed.

Lemma never_first_gap (n : nat) :
  forall c, 0 < c -> c <> 20000000 + N ->
  nth_candidate N c n <> Some (20000000 + N).
Proof.
induction n as [|n IH]; intros c Hc Hne; cbn [nth_candidate].
- congruence.
- destruct (advance N c) as [next|] eqn:Ha; [|discriminate].
  pose proof (advance_step N c next Hc Ha) as Hstep.
  apply IH; [lia|].
  apply advance_spec in Ha. destruct Ha as (g & Hg & ->).
  destruct (Z_lt_le_dec c 20000000) as [Hlt|Hge].
  + rewrite growth_exact in Hg by lia. rewrite Z.div_small in Hg by lia.
    injection Hg as <-. lia.
  + pose proof (growth_ge_1 c g Hge Hg). lia.
Qed.

End Pool.

(** X4: the workers of a pool of [N] partition the integers from 100 up to
    [20000000 + N]: each of them is a candidate of exactly one worker, at
    exactly one place of its sequence. *)
Theorem pool_covers (N x : Z) :
  1 <= N -> 100 <= x < 20000000 + N ->
  exists w n,
    In w (start_workers N) /\
    nth_candidate (snd w) (100 + fst w) n = Some x /\
    forall w' n',
      In w' (start_workers N) ->
      nth_candidate (snd w') (100 + fst w') n' = Some x -> w' = w /\ n' = n.
Proof.
intros HN Hx.
pose proof (Z.div_mod (x - 100) N ltac:(lia)) as Hdm.
pose proof (Z.mod_pos_bound (x - 100) N ltac:(lia)) as Hm.
assert (0 <= (x - 100) / N) as Hq by (apply Z.div_pos; lia).
set (i := (x - 100) mod N) in *. set (q := (x - 100) / N) in *.
assert (nth_candidate N (100 + i) (Z.to_nat q) = Some x) as Hnth.
{ rewrite nth_candidate_below by (rewrite ?Z2Nat.id; nia).
  f_equal. rewrite Z2Nat.id by lia. lia. }
exists (i, N), (Z.to_nat q). cbn [fst snd].
split; [apply start_workers_In; cbn [fst snd]; lia|].
split; [exact Hnth|].
intros [j s] n' Hin Hn'. apply start_workers_In in Hin; [|exact HN].
cbn [fst snd] in *. destruct Hin as [-> Hj].
destruct (pool_disjoint N HN j i n' (Z.to_nat q) x Hj ltac:(lia) Hn' Hnth) as [-> ->].
split; reflexivity.
Qed.

(** X5: from 20000000 on the search has gaps: the integer
    [20000000 + N] is never a candidate of any worker of a pool of [N]. *)
Theorem first_gap_never_tested (N : Z) (w : Z * Z) (n : nat) :
  1 <= N -> In w (start_workers N) ->
  nth_candidate (snd w) (100 + fst w) n <> Some (20000000 + N).
Proof.
intros HN Hin. apply start_workers_In in Hin; [|exact HN].
destruct Hin as [-> Hi]. apply never_first_gap; lia.
Qed.

Section WorkerAccounting.

Variables worker_id stride : Z.
Hypothesis stride_pos : 1 <= stride.

Lemma candidates_app (c c1 c2 : Z) (k1 k2 : nat) (l1 l2 : list Z) :
  candidates stride c k1 = Some (l1, c1) ->
  candidates stride c1 k2 = Some (l2, c2) ->
  candidates stride c (k1 + k2) = Some (l1 ++ l2, c2).
Proof.
revert c l1; induction k1 as [|k1 IH]; intros c l1; cbn [candidates Nat.add].
- intros [= <- <-] H2. exact H2.
- destruct (advance stride c) as [next|]; [|discriminate].
  destruct (candidates stride next k1) as [[l c']|] eqn:E; [|discriminate].
  intros [= <- <-] H2. rewrite (IH next l E H2). reflexivity.
Qed.

Lemma candidates_In (c c' x : Z) (k : nat) (l : list Z) :
  candidates stride c k = Some (l, c') -> In x l ->
  exists n, nth_candidate stride c n = Some x.
Proof.
intros Hc Hin. apply (candidates_nth stride) in Hc.
destruct Hc as (Hl & _ & Hi).
destruct (In_nth l x 0 Hin) as (n & Hn & <-).
exists n. apply Hi. lia.
Qed.

Lemma sum_counts_app (a b : list Report.t) :
  sum_counts (a ++ b) = sum_counts a + sum_counts b.
Proof.
induction a as [|r a IH]; cbn [app sum_counts fold_right]; [reflexivity|].
fold (sum_counts (a ++ b)). fold (sum_counts a). lia.
Qed.

(** What a worker has put on the queue accounts for the candidates of its
    completed slices: the counts add up to the primes among them, and the
    reports name primes of increasing size. *)
Lemma worker_loop_accounting (flags : list bool) :
  forall clock current queue status queue',
  0 < current ->
  worker_loop worker_id stride flags clock current queue = (status, queue') ->
  exists sent tested c,
    queue' = queue ++ sent /\
    candidates stride current (length tested) = Some (tested, c) /\
    sum_counts sent = Z.of_nat (length (filter is_prime tested)) /\
    Forall (fun r => In (Report.highest r) (filter is_prime tested)) sent /\
    StronglySorted (fun a b => Report.highest a < Report.highest b) sent.
Proof.
induction flags as [|flag flags IH]; intros clock current queue status queue' Hpos;
  cbn [worker_loop].
- intros [= _ <-]. exists [], [], current. rewrite app_nil_r.
  repeat split; constructor.
- assert (forall e, (e, queue) = (status, queue') ->
            exists sent tested c,
              queue' = queue ++ sent /\
              candidates stride current (length tested) = Some (tested, c) /\
              sum_counts sent = Z.of_nat (length (filter is_prime tested)) /\
              Forall (fun r => In (Report.highest r) (filter is_prime tested)) sent /\
              StronglySorted (fun a b => Report.highest a < Report.highest b) sent)
    as Hsame.
  { intros e [= _ <-]. exists [], [], current. rewrite app_nil_r.
    repeat split; constructor. }
  destruct flag; [apply Hsame|].
  destruct clock as [|start_time clock1]; [apply Hsame|].
  destruct (time_slice _ _ _ _) as [[st clock2]| |] eqn:Hslice; try apply Hsame.
  intros Hrun.
  apply time_slice_spec in Hslice. cbn [current_num count max_found] in Hslice.
  destruct Hslice as (tested1 & Hc1 & Hn1 & Hm1 & _).
  destruct (candidates_sorted stride stride_pos current _ _ tested1 Hpos Hc1)
    as (Hsort1 & Hall1 & Hle1).
  apply IH in Hrun; [|lia].
  destruct Hrun as (sent & tested2 & c & -> & Hc2 & Hsum & Hin2 & Hsorted).
  destruct (candidates_sorted stride stride_pos (current_num st) _ _ tested2
              ltac:(lia) Hc2) as (_ & Hall2 & _).
  exists (match slice_report worker_id st with Some r => r :: sent | None => sent end),
    (tested1 ++ tested2), c.
  rewrite length_app, filter_app, length_app.
  split; [destruct (slice_report worker_id st); cbn [put];
          rewrite <- ?app_assoc; reflexivity|].
  split; [exact (candidates_app _ _ _ _ _ _ _ Hc1 Hc2)|].
  assert (Forall (fun r => In (Report.highest r)
                             (filter is_prime tested1 ++ filter is_prime tested2)) sent)
    as Hin2'.
  { eapply Forall_impl; [|exact Hin2]. cbv beta. intros r Hr.
    apply in_or_app. right. exact Hr. }
  destruct (slice_report worker_id st) as [r|] eqn:Hr.
  + apply slice_report_some in Hr. destruct Hr as [-> Hr].
    remember (filter is_prime tested1) as primes eqn:Ep.
    assert (primes <> []) as Hne
      by (destruct primes; [cbn [length last] in *; lia | discriminate]).
    assert (In (max_found st) primes) as Hlast by (rewrite Hm1; apply last_In, Hne).
    split; [cbn [sum_counts fold_right Report.count]; fold (sum_counts sent); lia|].
    split; [constructor; [cbn [Report.highest]; apply in_or_app; left; exact Hlast
                         | exact Hin2']|].
    constructor; [exact Hsorted|].
    rewrite Forall_forall in *. intros r' Hr'. cbn [Report.highest].
    specialize (Hin2 r' Hr'). apply filter_In in Hin2.
    rewrite Ep in Hlast. apply filter_In in Hlast.
    pose proof (Hall1 _ (proj1 Hlast)). pose proof (Hall2 _ (proj1 Hin2)). lia.
  + split; [|split; assumption].
    assert (filter is_prime tested1 = []) as ->; [|cbn [length]; lia].
    unfold slice_report in Hr.
    destruct (Z.ltb_spec 0 (count st)); [discriminate|].
    destruct (filter is_prime tested1); [reflexivity | cbn [length] in Hn1; lia].
Qed.

End WorkerAccounting.

Section SliceReports.

Variable worker_id : Z.

Lemma sum_counts_BatchReport (tested : list Z) :
  sum_counts (BatchReport_spec worker_id tested)
  = Z.of_nat (length (filter is_prime tested)).
Proof.
unfold BatchReport_spec.
destruct (Z.eqb_spec (Z.of_nat (length (filter is_prime tested))) 0) as [E|E];
  cbn [sum_counts fold_right Report.count]; lia.
Qed.

Lemma sum_counts_slices (chunks : list (list Z)) :
  sum_counts (flat_map (BatchReport_spec worker_id) chunks)
  = Z.of_nat (length (filter is_prime (concat chunks))).
Proof.
induction chunks as [|tested chunks IH]; cbn [flat_map concat]; [reflexivity|].
rewrite sum_counts_app, sum_counts_BatchReport, IH, filter_app, length_app. lia.
Qed.

Lemma BatchReport_In (tested : list Z) (r : Report.t) :
  In r (BatchReport_spec worker_id tested) ->
  Report.id r = worker_id /\ 0 < Report.count r /\
  Report.highest r = last (filter is_prime tested) 0 /\
  In (Report.highest r) (filter is_prime tested).
Proof.
unfold BatchReport_spec.
destruct (Z.eqb_spec (Z.of_nat (length (filter is_prime tested))) 0) as [E|E];
  [intros [] | intros [<- | []]].
cbn [Report.id Report.count Report.highest].
split; [reflexivity|]. split; [lia|]. split; [reflexivity|].
apply last_In. intros E'. rewrite E' in E. cbn in E. lia.
Qed.

Lemma sorted_app_lt (l1 l2 : list Z) :
  StronglySorted Z.lt (l1 ++ l2) ->
  StronglySorted Z.lt l1 /\ StronglySorted Z.lt l2 /\
  forall x y, In x l1 -> In y l2 -> x < y.
Proof.
induction l1 as [|a l1 IH]; cbn [app]; intros Hs.
- split; [constructor|]. split; [exact Hs | intros x y []].
- apply StronglySorted_inv in Hs. destruct Hs as [Hs Ha].
  destruct (IH Hs) as (H1 & H2 & Hlt). rewrite Forall_forall in Ha.
  split; [|split; [exact H2|]].
  + constructor; [exact H1|]. apply Forall_forall. intros x Hx.
    apply Ha, in_or_app. left. exact Hx.
  + intros x y [<-|Hx] Hy; [|apply Hlt; assumption].
    apply Ha, in_or_app. right. exact Hy.
Qed.

(** The reports of slices whose candidates increase from slice to slice name
    primes among those candidates, each the largest of its slice, of
    increasing size. *)
Lemma slices_reports_sorted (chunks : list (list Z)) :
  StronglySorted Z.lt (concat chunks) ->
  Forall (fun r => Report.id r = worker_id /\ 0 < Report.count r /\
                   is_prime (Report.highest r) = true /\
                   In (Report.highest r) (concat chunks))
    (flat_map (BatchReport_spec worker_id) chunks) /\
  Forall (fun tested =>
            forall r p, In r (BatchReport_spec worker_id tested) ->
              In p tested -> is_prime p = true -> p <= Report.highest r)
    chunks /\
  StronglySorted (fun a b => Report.highest a < Report.highest b)
    (flat_map (BatchReport_spec worker_id) chunks).
Proof.
induction chunks as [|tested chunks IH]; cbn [flat_map concat]; intros Hs.
- repeat split; constructor.
- destruct (sorted_app_lt _ _ Hs) as (Hs1 & Hs2 & Hlt).
  destruct (IH Hs2) as (Hall & Hmax & Hsorted).
  assert (Forall (fun r => Report.id r = worker_id /\ 0 < Report.count r /\
                           is_prime (Report.highest r) = true /\
                           In (Report.highest r) tested)
            (BatchReport_spec worker_id tested)) as Hhead.
  { apply Forall_forall. intros r Hr. apply BatchReport_In in Hr.
    destruct Hr as (Hid & Hcount & _ & Hin). apply filter_In in Hin. tauto. }
  split; [|split].
  + apply Forall_app. split.
    * eapply Forall_impl; [|exact Hhead]. cbv beta. intros r (? & ? & ? & Hin).
      repeat split; trivial. apply in_or_app. left. exact Hin.
    * eapply Forall_impl; [|exact Hall]. cbv beta. intros r (? & ? & ? & Hin).
      repeat split; trivial. apply in_or_app. right. exact Hin.
  + constructor; [|exact Hmax].
    intros r p Hr Hp Hprime. apply BatchReport_In in Hr.
    destruct Hr as (_ & _ & -> & _).
    apply sorted_last_max; [apply sorted_filter, Hs1|].
    apply filter_In; split; assumption.
  + unfold BatchReport_spec in *.
    destruct (Z.of_nat (length (filter is_prime tested)) =? 0); cbn [app];
      [exact Hsorted|].
    constructor; [exact Hsorted|].
    apply Forall_inv in Hhead. destruct Hhead as (_ & _ & _ & Hin).
    eapply Forall_impl; [|exact Hall]. cbv beta. intros r (_ & _ & _ & Hr).
    apply Hlt; assumption.
Qed.

End SliceReports.

(** X6: a worker that has completed some slices and completes no further
    one, however it then ends, has on its queue exactly what the spec says
    those slices send, in their order: one report for each slice that tested
    a prime.  It has returned only if it read the flag as set.  The counts
    of the reports add up to the number of primes among all the candidates
    of the completed slices; each report carries the worker's id, a positive
    count and the largest prime of its slice; and the highest values
    increase strictly along the queue. *)
Theorem worker_reports_account
    (worker_id stride : Z) (slices : list slice_readings)
    (chunks : list (list Z)) (cursor : Z)
    (flags : list bool) (clock : list float) :
  0 <= worker_id -> 1 <= stride ->
  Forall completed slices ->
  Forall2 (fun s tested => length (within s) = length tested) slices chunks ->
  candidates stride (100 + worker_id) (length (concat chunks))
    = Some (concat chunks, cursor) ->
  completes_no_slice flags clock ->
  snd (worker_process worker_id stride
         (repeat false (length slices) ++ flags)
         (concat (map slice_clock slices) ++ clock))
    = flat_map (BatchReport_spec worker_id) chunks /\
  (fst (worker_process worker_id stride
          (repeat false (length slices) ++ flags)
          (concat (map slice_clock slices) ++ clock)) = Returned
   <-> exists rest, flags = true :: rest) /\
  sum_counts (flat_map (BatchReport_spec worker_id) chunks)
    = Z.of_nat (length (filter is_prime (concat chunks))) /\
  Forall (fun r => Report.id r = worker_id /\ 0 < Report.count r /\
                   is_prime (Report.highest r) = true /\
                   In (Report.highest r) (concat chunks))
    (flat_map (BatchReport_spec worker_id) chunks) /\
  Forall (fun tested =>
            forall r p, In r (BatchReport_spec worker_id tested) ->
              In p tested -> is_prime p = true -> p <= Report.highest r)
    chunks /\
  StronglySorted (fun a b => Report.highest a < Report.highest b)
    (flat_map (BatchReport_spec worker_id) chunks).
Proof.
intros Hid Hs Hdone Hlen Hc Hrest.
unfold worker_process.
rewrite (worker_loop_slices worker_id stride slices chunks Hdone Hlen
           _ _ _ cursor _ Hc).
cbn [app].
destruct (worker_loop_no_slice worker_id stride flags clock cursor
            (flat_map (BatchReport_spec worker_id) chunks) Hrest) as [Hq Hst].
split; [exact Hq|]. split; [exact Hst|].
split; [apply sum_counts_slices|].
apply slices_reports_sorted.
destruct (candidates_sorted stride Hs (100 + worker_id) _ _ _ ltac:(lia) Hc)
  as (Hsort & _). exact Hsort.
Qed.

(** X7: in a pool of [N], reports of two different workers never name the
    same prime as their highest. *)
Theorem reports_of_distinct_workers
    (N i j : Z) (flags_i flags_j : list bool) (clock_i clock_j : list float)
    (status_i status_j : exit) (queue_i queue_j : list Report.t)
    (r_i r_j : Report.t) :
  1 <= N -> 0 <= i < N -> 0 <= j < N -> i <> j ->
  worker_process i N flags_i clock_i = (status_i, queue_i) ->
  worker_process j N flags_j clock_j = (status_j, queue_j) ->
  In r_i queue_i -> In r_j queue_j ->
  Report.highest r_i <> Report.highest r_j.
Proof.
intros HN Hi Hj Hij Hri Hrj Hini Hinj Heq.
unfold worker_process in *.
apply (worker_loop_accounting i N HN) in Hri; [|lia].
apply (worker_loop_accounting j N HN) in Hrj; [|lia].
destruct Hri as (si & ti & ci & Hqi & Hci & _ & Hfi & _).
destruct Hrj as (sj & tj & cj & Hqj & Hcj & _ & Hfj & _).
cbn [app] in Hqi, Hqj. subst si sj.
rewrite Forall_forall in Hfi, Hfj.
pose proof (Hfi _ Hini) as Hpi. pose proof (Hfj _ Hinj) as Hpj.
apply filter_In in Hpi, Hpj.
destruct (candidates_In N _ _ _ _ _ Hci (proj1 Hpi)) as [m Hm].
destruct (candidates_In N _ _ _ _ _ Hcj (proj1 Hpj)) as [n Hn].
rewrite Heq in Hm.
destruct (pool_disjoint N HN i j m n _ Hi Hj Hm Hn). contradiction.
Qed.

Section AggregateTotals.

Lemma drain_total (l : list Report.t) (s : Stats.t) :
  Stats.total (drain s l) = Stats.total s + sum_counts l.
Proof.
revert s; induction l as [|r l IH]; intros s.
- cbn. lia.
- cbn [drain fold_left sum_counts fold_right]. fold (drain (absorb s r) l).
  fold (sum_counts l). rewrite IH, absorb_total. lia.
Qed.

Lemma drain_fixed (l : list Report.t) (s : Stats.t) :
  Stats.threads (drain s l) = Stats.threads s /\
  Stats.running (drain s l) = Stats.running s.
Proof.
revert s; induction l as [|r l IH]; intros s; [split; reflexivity|].
cbn [drain fold_left]. fold (drain (absorb s r) l).
destruct (IH (absorb s r)) as [-> ->]. split; reflexivity.
Qed.

Lemma sum_counts_nonneg (l : list Report.t) :
  Forall (fun r => 0 <= Report.count r) l -> 0 <= sum_counts l.
Proof.
induction 1 as [|r l Hr _ IH]; cbn [sum_counts fold_right]; [lia|].
fold (sum_counts l). lia.
Qed.

Lemma sum_counts_concat (qs : list (list Report.t)) :
  sum_counts (concat qs) = fold_right (fun q acc => sum_counts q + acc) 0 qs.
Proof.
induction qs as [|q qs IH]; cbn [concat fold_right]; [reflexivity|].
rewrite sum_counts_app, IH. reflexivity.
Qed.

(** The maximum kept by the aggregator is its first value or the highest
    of one of the reports, and no report exceeds it. *)
Lemma drain_highest_max (l : list Report.t) (s : Stats.t) :
  (Stats.highest (drain s l) = Stats.highest s \/
   exists r, In r l /\ Stats.highest (drain s l) = Report.highest r) /\
  forall r, In r l -> Report.highest r <= Stats.highest (drain s l).
Proof.
revert s; induction l as [|r l IH]; intros s.
- split; [left; reflexivity | intros r []].
- cbn [drain fold_left]. fold (drain (absorb s r) l).
  destruct (IH (absorb s r)) as [Hor Hall].
  pose proof (drain_highest_le l (absorb s r)) as Hle.
  rewrite absorb_highest in *.
  split.
  + destruct Hor as [Hsame | (r' & Hin & Hr')].
    * destruct (Z.max_spec (Report.highest r) (Stats.highest s)) as [[_ E]|[_ E]];
        rewrite E in Hsame.
      -- left. exact Hsame.
      -- right. exists r. split; [left; reflexivity | exact Hsame].
    * right. exists r'. split; [right; exact Hin | exact Hr'].
  + intros r' [<-|Hin]; [lia | apply Hall, Hin].
Qed.

Lemma sorted_NoDup (l : list Z) : StronglySorted Z.lt l -> NoDup l.
Proof.
induction 1 as [|a l _ IH Ha]; constructor; [|exact IH].
intros Hin. rewrite Forall_forall in Ha. specialize (Ha a Hin). lia.
Qed.

Lemma range_up_NoDup (k : nat) (start : Z) : NoDup (range_up k start 1).
Proof.
revert start; induction k as [|k IH]; intros start; cbn [range_up]; constructor.
- intros Hin. apply range_up_In in Hin. destruct Hin as (i & _ & Hi). lia.
- apply IH.
Qed.

Lemma start_workers_NoDup (N : Z) : NoDup (start_workers N).
Proof.
unfold start_workers, range.
pose proof (range_up_NoDup (Z.to_nat ((N - 0 + 1 - 1) / 1)) 0) as Hnd.
induction Hnd as [|a l Hnotin _ IH]; cbn [map]; constructor; [|exact IH].
intros Hin. apply in_map_iff in Hin. destruct Hin as (b & Hb & Hin).
assert (b = a) by congruence. subst b. contradiction.
Qed.

End AggregateTotals.

(** X8: once a report has arrived, the highest prime the aggregator shows
    is a prime: the highest of one of the reports drained, and no report
    drained names a larger one.  With no report it is 0. *)
Theorem displayed_highest_is_prime
    (CORE_COUNT : Z) (pending : list Report.t) :
  Forall (fun r => exists worker_id, valid_report worker_id r) pending ->
  (pending = [] -> Stats.highest (drain (initial_stats CORE_COUNT) pending) = 0) /\
  (pending <> [] ->
   is_prime (Stats.highest (drain (initial_stats CORE_COUNT) pending)) = true /\
   (exists r, In r pending /\
      Stats.highest (drain (initial_stats CORE_COUNT) pending) = Report.highest r) /\
   forall r, In r pending ->
      Report.highest r <= Stats.highest (drain (initial_stats CORE_COUNT) pending)).
Proof.
intros Hvalid. split; [intros ->; reflexivity|].
intros Hne.
destruct (drain_highest_max pending (initial_stats CORE_COUNT)) as [Hor Hall].
assert (exists r, In r pending /\
          Stats.highest (drain (initial_stats CORE_COUNT) pending) = Report.highest r)
  as (r & Hin & Hr).
{ destruct Hor as [Hzero|Hex]; [|exact Hex]. exfalso.
  destruct pending as [|r0 l]; [congruence|].
  rewrite Forall_forall in Hvalid.
  destruct (Hvalid r0 (or_introl eq_refl)) as (w & _ & _ & Hp).
  apply is_prime_sound, Z.prime_ge_2 in Hp.
  specialize (Hall r0 (or_introl eq_refl)). rewrite Hzero in Hall.
  cbn [initial_stats Stats.highest] in Hall. lia. }
split; [|split; [exists r; split; assumption | exact Hall]].
rewrite Hr. rewrite Forall_forall in Hvalid.
destruct (Hvalid r Hin) as (w & _ & _ & Hp). exact Hp.
Qed.

Section PoolOfSlices.

Variable N : Z.
Hypothesis N_pos : 1 <= N.
Variable readings : Z -> list bool * list float.
Variable slices : Z -> list slice_readings.
Variable chunks : Z -> list (list Z).
Hypothesis runs :
  forall i, 0 <= i < N ->
    Forall completed (slices i) /\
    Forall2 (fun s tested => length (within s) = length tested)
      (slices i) (chunks i) /\
    (exists cursor,
       candidates N (100 + i) (length (concat (chunks i)))
       = Some (concat (chunks i), cursor)) /\
    exists flags clock,
      completes_no_slice flags clock /\
      readings i = (repeat false (length (slices i)) ++ flags,
                    concat (map slice_clock (slices i)) ++ clock).

Lemma queue_of_slices (w : Z * Z) :
  In w (start_workers N) ->
  queue_of readings w = flat_map (BatchReport_spec (fst w)) (chunks (fst w)).
Proof.
intros Hw. apply start_workers_In in Hw; [|exact N_pos]. destruct Hw as [Hs Hi].
destruct (runs (fst w) Hi)
  as (Hdone & Hlen & (cursor & Hc) & flags & clock & Hrest & Hr).
unfold queue_of, worker_process. rewrite Hr, Hs. cbn [fst snd].
rewrite (worker_loop_slices (fst w) N _ _ Hdone Hlen _ _ _ cursor _ Hc).
cbn [app]. apply (worker_loop_no_slice (fst w) N flags clock cursor _ Hrest).
Qed.

Lemma pool_sum (ws : list (Z * Z)) :
  (forall w, In w ws -> In w (start_workers N)) ->
  sum_counts (concat (map (queue_of readings) ws))
  = Z.of_nat (length (filter is_prime
                        (flat_map (fun w => concat (chunks (fst w))) ws))).
Proof.
induction ws as [|w ws IH]; intros Hsub; [reflexivity|].
cbn [map concat flat_map].
rewrite sum_counts_app, filter_app, length_app, IH
  by (intros w' Hw'; apply Hsub; right; exact Hw').
rewrite queue_of_slices by (apply Hsub; left; reflexivity).
rewrite sum_counts_slices. lia.
Qed.

Lemma pool_tested_from (ws : list (Z * Z)) (x : Z) :
  (forall w, In w ws -> In w (start_workers N)) ->
  In x (flat_map (fun w => concat (chunks (fst w))) ws) ->
  exists w n, In w ws /\ nth_candidate N (100 + fst w) n = Some x.
Proof.
intros Hsub Hx. apply in_flat_map in Hx. destruct Hx as (w & Hw & Hx).
pose proof (Hsub w Hw) as Hin.
apply start_workers_In in Hin; [|exact N_pos]. destruct Hin as [_ Hi].
destruct (runs (fst w) Hi) as (_ & _ & (cursor & Hc) & _).
destruct (candidates_In N _ _ _ _ _ Hc Hx) as [n Hn].
exists w, n. split; assumption.
Qed.

(** No candidate is tested twice in the pool, within a worker or by two. *)
Lemma pool_tested_NoDup (ws : list (Z * Z)) :
  NoDup ws -> (forall w, In w ws -> In w (start_workers N)) ->
  NoDup (flat_map (fun w => concat (chunks (fst w))) ws).
Proof.
induction 1 as [|w ws Hnotin Hnd IH]; intros Hsub; cbn [flat_map]; [constructor|].
pose proof (Hsub w (or_introl eq_refl)) as Hw.
apply start_workers_In in Hw; [|exact N_pos]. destruct Hw as [Hs Hi].
destruct (runs (fst w) Hi) as (_ & _ & (cursor & Hc) & _).
destruct (candidates_sorted N N_pos (100 + fst w) _ _ _ ltac:(lia) Hc) as (Hsort & _).
apply NoDup_app;
  [apply sorted_NoDup, Hsort
  | apply IH; intros w' Hw'; apply Hsub; right; exact Hw' |].
intros x Hx Hx'.
destruct (candidates_In N _ _ _ _ _ Hc Hx) as [m Hm].
destruct (pool_tested_from ws x
            (fun w' Hw' => Hsub w' (or_intror Hw')) Hx') as (w' & n & Hw' & Hn).
pose proof (Hsub w' (or_intror Hw')) as Hin'.
apply start_workers_In in Hin'; [|exact N_pos]. destruct Hin' as [Hs' Hi'].
destruct (pool_disjoint N N_pos (fst w) (fst w') m n x Hi Hi' Hm Hn) as [Hfst _].
apply Hnotin. replace w with w'; [exact Hw'|].
destruct w, w'; cbn [fst snd] in *. congruence.
Qed.

End PoolOfSlices.

(** X9: in a pool of which every worker has completed some slices and
    completes no further one, once the reports of all the workers have been
    drained, in whatever order they arrived, the total is the number of
    primes among the candidates tested in the completed slices of the pool,
    and no candidate was tested twice: no prime is counted twice. *)
Theorem pool_total_counts_distinct_primes
    (CORE_COUNT : Z) (readings : Z -> list bool * list float)
    (slices : Z -> list slice_readings) (chunks : Z -> list (list Z))
    (pending : list Report.t) :
  1 <= CORE_COUNT ->
  (forall i, 0 <= i < CORE_COUNT ->
     Forall completed (slices i) /\
     Forall2 (fun s tested => length (within s) = length tested)
       (slices i) (chunks i) /\
     (exists cursor,
        candidates CORE_COUNT (100 + i) (length (concat (chunks i)))
        = Some (concat (chunks i), cursor)) /\
     exists flags clock,
       completes_no_slice flags clock /\
       readings i = (repeat false (length (slices i)) ++ flags,
                     concat (map slice_clock (slices i)) ++ clock)) ->
  Permutation pending (concat (map snd (run_pool CORE_COUNT readings))) ->
  NoDup (flat_map (fun w => concat (chunks (fst w))) (start_workers CORE_COUNT)) /\
  Stats.total (drain (initial_stats CORE_COUNT) pending)
  = Z.of_nat (length (filter is_prime
                        (flat_map (fun w => concat (chunks (fst w)))
                           (start_workers CORE_COUNT)))).
Proof.
intros HN Hruns Hperm. split.
- apply (pool_tested_NoDup CORE_COUNT HN readings slices chunks Hruns);
    [apply start_workers_NoDup | trivial].
- rewrite (drain_perm _ _ Hperm), drain_total.
  unfold run_pool. rewrite map_map. cbn [initial_stats Stats.total].
  change (map _ (start_workers CORE_COUNT))
    with (map (queue_of readings) (start_workers CORE_COUNT)).
  rewrite (pool_sum CORE_COUNT HN readings slices chunks Hruns) by trivial.
  reflexivity.
Qed.

Section MainLoop.

(** Between two boundaries the iterations only drain the queue. *)
Lemma run_ticks_between (mid : list (list Report.t * float)) :
  forall st,
  Forall (fun t => SFleb one_second (float_sub (snd t) (last_check_time st)) = false)
         mid ->
  run_ticks st mid
  = {| stats := drain (stats st) (concat (map fst mid));
       last_check_time := last_check_time st;
       last_total_primes := last_total_primes st |}.
Proof.
induction mid as [|t mid IH]; intros st Hall.
- destruct st; reflexivity.
- inversion Hall as [|? ? Ht Hmid]; subst.
  cbn [run_ticks fold_left map concat].
  fold (run_ticks (tick st (fst t) (snd t)) mid).
  assert (tick st (fst t) (snd t)
          = {| stats := drain (stats st) (fst t);
               last_check_time := last_check_time st;
               last_total_primes := last_total_primes st |}) as Htick
    by (unfold tick, boundary; rewrite Ht; reflexivity).
  rewrite Htick, IH by exact Hmid.
  cbn [stats last_check_time last_total_primes]. now rewrite drain_app.
Qed.

Lemma run_ticks_app (a b : list (list Report.t * float)) (st : main_state) :
  run_ticks st (a ++ b) = run_ticks (run_ticks st a) b.
Proof. apply fold_left_app. Qed.

Lemma tick_invariant (CORE_COUNT : Z) (st : main_state)
    (pending : list Report.t) (now : float) :
  Forall (fun r => 0 <= Report.count r) pending ->
  loop_invariant CORE_COUNT st -> loop_invariant CORE_COUNT (tick st pending now).
Proof.
intros Hnn (Ht & Hr & Hl & Hs). unfold loop_invariant, tick.
pose proof (drain_total pending (stats st)) as Htot.
pose proof (sum_counts_nonneg pending Hnn) as Hsum.
pose proof (drain_speed pending (stats st)) as Hsp.
destruct (drain_fixed pending (stats st)) as [Hth Hrun].
destruct (boundary st now);
  cbn [stats last_total_primes Stats.threads Stats.running Stats.total Stats.speed];
  repeat split; try congruence; lia.
Qed.

End MainLoop.

Section MainLoopRuns.

Lemma tick_total (st : main_state) (pending : list Report.t) (now : float) :
  Stats.total (stats (tick st pending now))
  = Stats.total (stats st) + sum_counts pending.
Proof.
unfold tick. destruct (boundary st now); cbn [stats Stats.total];
  apply drain_total.
Qed.

Lemma run_ticks_total (ticks : list (list Report.t * float)) :
  forall st,
  Stats.total (stats (run_ticks st ticks))
  = Stats.total (stats st) + sum_counts (concat (map fst ticks)).
Proof.
induction ticks as [|t ticks IH]; intros st.
- cbn. lia.
- cbn [run_ticks fold_left map concat].
  fold (run_ticks (tick st (fst t) (snd t)) ticks).
  rewrite IH, tick_total, sum_counts_app. lia.
Qed.

Lemma run_ticks_invariant (CORE_COUNT : Z) (ticks : list (list Report.t * float)) :
  forall st,
  Forall (fun t => Forall (fun r => 0 <= Report.count r) (fst t)) ticks ->
  loop_invariant CORE_COUNT st -> loop_invariant CORE_COUNT (run_ticks st ticks).
Proof.
induction ticks as [|t ticks IH]; intros st Hall Hinv; [exact Hinv|].
inversion Hall as [|? ? Ht Hrest]; subst.
cbn [run_ticks fold_left]. fold (run_ticks (tick st (fst t) (snd t)) ticks).
apply IH; [exact Hrest|]. apply tick_invariant; assumption.
Qed.

End MainLoopRuns.

(** X10: at a boundary the speed is the number of primes reported since
    the previous boundary: the counts of all the reports drained by the
    iterations after it, the boundary iteration included. *)
Theorem speed_counts_window
    (st : main_state) (mid : list (list Report.t * float))
    (last : list Report.t * float) :
  last_total_primes st = Stats.total (stats st) ->
  Forall (fun t => SFleb one_second (float_sub (snd t) (last_check_time st)) = false)
         mid ->
  SFleb one_second (float_sub (snd last) (last_check_time st)) = true ->
  Stats.speed (stats (run_ticks st (mid ++ [last])))
    = sum_counts (concat (map fst (mid ++ [last]))) /\
  last_total_primes (run_ticks st (mid ++ [last]))
    = Stats.total (stats (run_ticks st (mid ++ [last]))) /\
  last_check_time (run_ticks st (mid ++ [last])) = snd last.
Proof.
intros Hbase Hmid Hlast.
pose proof (run_ticks_total (mid ++ [last]) st) as Htot.
rewrite run_ticks_app, (run_ticks_between mid st Hmid) in *.
cbn [run_ticks fold_left] in *.
unfold tick, boundary in *. cbn [stats last_check_time last_total_primes] in *.
rewrite Hlast in *. cbn [stats last_check_time last_total_primes Stats.speed Stats.total] in *.
repeat split. lia.
Qed.

(** X11: over any run of the main loop from its initial state, the thread
    count stays [CORE_COUNT], [running] stays true, so that the header
    always reads RUNNING in bold green and never PAUSED; the total is the
    sum of the counts received, and the speed and the baseline stay between
    0 and the total. *)
Theorem main_loop_invariants
    (CORE_COUNT : Z) (start : float) (ticks : list (list Report.t * float)) :
  Forall (fun t => Forall (fun r => 0 <= Report.count r) (fst t)) ticks ->
  loop_invariant CORE_COUNT (run_ticks (initial_state CORE_COUNT start) ticks) /\
  Stats.total (stats (run_ticks (initial_state CORE_COUNT start) ticks))
    = sum_counts (concat (map fst ticks)) /\
  status_text (Stats.running (stats (run_ticks (initial_state CORE_COUNT start) ticks)))
    = "RUNNING"%string /\
  status_style (Stats.running (stats (run_ticks (initial_state CORE_COUNT start) ticks)))
    = "bold green"%string.
Proof.
intros Hall.
assert (loop_invariant CORE_COUNT (run_ticks (initial_state CORE_COUNT start) ticks))
  as Hinv.
{ apply run_ticks_invariant; [exact Hall|].
  unfold loop_invariant, initial_state, initial_stats; cbn. repeat split; lia. }
split; [exact Hinv|]. split; [rewrite run_ticks_total; reflexivity|].
destruct Hinv as (_ & -> & _). split; reflexivity.
Qed.

Section RoundingInGeneral.

Lemma shr_m_iter (k : nat) (mrs : shr_record) :
  0 <= shr_m mrs -> shr_m (Nat.iter k shr_1 mrs) = shr_m mrs / 2 ^ Z.of_nat k.
Proof.
intros Hm. induction k as [|k IH].
- cbn [Nat.iter]. change (2 ^ Z.of_nat 0) with 1. now rewrite Z.div_1_r.
- rewrite Nat.iter_succ.
  assert (0 < 2 ^ Z.of_nat k) as Hp by (apply Z.pow_pos_nonneg; lia).
  destruct (Nat.iter k shr_1 mrs) as [m r s] eqn:E. cbn [shr_m] in IH.
  assert (0 <= m) by (rewrite IH; apply Z.div_pos; lia).
  rewrite shr_1_nonneg by assumption. cbn [shr_m].
  rewrite IH, Z.div_div, Nat2Z.inj_succ, Z.pow_succ_r by lia.
  f_equal. lia.
Qed.

Lemma shr_m_shr (mrs : shr_record) (e n : Z) :
  0 <= shr_m mrs ->
  shr_m (fst (shr mrs e n)) = shr_m mrs / 2 ^ Z.max 0 n /\
  snd (shr mrs e n) = e + Z.max 0 n.
Proof.
intros Hm. destruct n as [|p|p]; cbn [shr fst snd].
- change (Z.max 0 0) with 0. rewrite Z.div_1_r. split; lia.
- rewrite iter_pos_nat, shr_m_iter by assumption.
  replace (Z.max 0 (Z.pos p)) with (Z.pos p) by lia.
  rewrite positive_nat_Z. split; reflexivity.
- replace (Z.max 0 (Z.neg p)) with 0 by lia. rewrite Z.div_1_r. split; lia.
Qed.

Lemma round_nearest_even_range (m : Z) (l : location) :
  m <= round_nearest_even m l <= m + 1.
Proof.
destruct l as [|[]]; cbn [round_nearest_even]; try lia.
destruct (Z.even m); lia.
Qed.

(** Whatever the location of the exact value, rounding a mantissa of at
    least 53 bits gives a canonical mantissa, with the exponent moved by the
    number of bits dropped, or by one more. *)
Lemma binary_round_aux_range (sx : bool) (q e : Z) (l : location) :
  2 ^ 52 <= q -> -1074 <= Zdigits2 q + e - 53 ->
  exists m e',
    2 ^ 52 <= m < 2 ^ 53 /\
    e + (Zdigits2 q - 53) <= e' <= e + (Zdigits2 q - 53) + 1 /\
    binary_round_aux 53 1024 sx q e l
    = if e' <=? 971 then S754_finite sx (Z.to_pos m) e' else S754_infinity sx.
Proof.
intros Hq Hn.
assert (53 <= Zdigits2 q)
  by (change 53 with (Zdigits2 (2 ^ 52)); apply Zdigits2_mono; lia).
pose proof (Zdigits2_bounds q ltac:(lia)) as Hb.
unfold binary_round_aux, shr_fexp at 1.
replace (fexp 53 1024 (Zdigits2 q + e) - e) with (Zdigits2 q - 53)
  by (unfold fexp, emin; lia).
assert (shr_m (shr_record_of_loc q l) = q) as Hrec by (destruct l as [|[]]; reflexivity).
destruct (shr_m_shr (shr_record_of_loc q l) e (Zdigits2 q - 53) ltac:(lia))
  as [Hm He].
destruct (shr (shr_record_of_loc q l) e (Zdigits2 q - 53)) as [mrs e1].
cbn [fst snd] in Hm, He. rewrite Hrec in Hm.
replace (Z.max 0 (Zdigits2 q - 53)) with (Zdigits2 q - 53) in * by lia.
remember (Zdigits2 q - 53) as n eqn:En.
assert (0 < 2 ^ n) as Hp by (apply Z.pow_pos_nonneg; lia).
assert (2 ^ 52 <= shr_m mrs < 2 ^ 53) as Ht.
{ rewrite Hm. replace (Zdigits2 q) with (53 + n) in Hb by lia.
  replace (53 + n - 1) with (52 + n) in Hb by lia.
  rewrite !Z.pow_add_r in Hb by lia.
  split; [apply Z.div_le_lower_bound | apply Z.div_lt_upper_bound]; lia. }
pose proof (round_nearest_even_range (shr_m mrs) (loc_of_shr_record mrs)) as Hr.
remember (round_nearest_even (shr_m mrs) (loc_of_shr_record mrs)) as a eqn:Ea.
change (1024 - 53) with 971.
destruct (Z.eq_dec a (2 ^ 53)) as [E|E].
- exists (2 ^ 52), (e1 + 1). split; [lia|]. split; [lia|].
  rewrite E.
  rewrite shr_fexp_spec; [|reflexivity | change (Zdigits2 (2 ^ 53)) with 54; lia].
  change (Zdigits2 (2 ^ 53) - 53) with 1. rewrite shr_spec by lia.
  reflexivity.
- assert (Zdigits2 a = 53) as Hda by (apply Zdigits2_unique; lia).
  exists a, e1. split; [lia|]. split; [lia|].
  rewrite shr_fexp_spec, Hda by lia. rewrite shr_spec by lia.
  change (53 - 53 <=? 0) with true. cbv iota. cbn [shr_m].
  destruct a as [|p|p]; try lia. reflexivity.
Qed.

End RoundingInGeneral.

Section SpeedBar.

Lemma str_mul_length (n : Z) : length (str_mul full_block n) = Z.to_nat n.
Proof.
unfold str_mul, full_block. induction (Z.to_nat n) as [|k IH]; [reflexivity|].
cbn [repeat concat app length]. now rewrite IH.
Qed.

(** The quotient and the exponent the division by 5000 hands to the
    rounding, for a speed of at least 5000. *)
Lemma div_core_5000 (a : Z) :
  5000 <= a ->
  exists q e l,
    SFdiv_core_binary 53 1024 a 0 5000 0 = (q, e, l) /\
    e <= 0 /\ 2 ^ 52 <= q /\ 2 ^ (- e) <= q /\ q * 5000 <= a * 2 ^ (- e).
Proof.
intros Ha. unfold SFdiv_core_binary.
change (Zdigits2 5000) with 13.
pose proof (Zdigits2_bounds a ltac:(lia)) as Hb.
assert (13 <= Zdigits2 a)
  by (change 13 with (Zdigits2 4096); apply Zdigits2_mono; lia).
remember (Zdigits2 a) as d eqn:Ed.
replace (Z.min (fexp 53 1024 (d + 0 - (13 + 0))) (0 - 0)) with (Z.min (d - 66) 0)
  by (unfold fexp, emin; lia).
remember (Z.min (d - 66) 0) as e eqn:Ee.
replace (0 - 0 - e) with (- e) by lia.
assert (match - e with
        | 0 => a
        | Z.pos _ => Z.shiftl a (- e)
        | Z.neg _ => 0
        end = a * 2 ^ (- e)) as ->.
{ destruct (- e) as [|p|p] eqn:Es; [lia | | lia].
  apply Z.shiftl_mul_pow2. lia. }
assert (0 < 2 ^ (- e)) as Hp by (apply Z.pow_pos_nonneg; lia).
assert (2 ^ 65 <= a * 2 ^ (- e)) as Hbig.
{ destruct (Z_le_gt_dec d 66).
  - replace 65 with ((d - 1) + (- e)) by lia.
    rewrite Z.pow_add_r by lia. nia.
  - replace (- e) with 0 by lia.
    assert (2 ^ 65 <= 2 ^ (d - 1)) by (apply Z.pow_le_mono_r; lia). lia. }
pose proof (Z.div_mod (a * 2 ^ (- e)) 5000 ltac:(lia)) as Hdm.
pose proof (Z.mod_pos_bound (a * 2 ^ (- e)) 5000 ltac:(lia)) as Hr.
unfold Z.div, Z.modulo in Hdm, Hr.
destruct (Z.div_eucl (a * 2 ^ (- e)) 5000) as [q r].
exists q, e, (new_location 5000 r).
split; [reflexivity|]. split; [lia|]. split; [lia|]. split; nia.
Qed.

Lemma float_of_thirty :
  float_of_int max_visual_len = Some (S754_finite false 8444249301319680 (-48)).
Proof. reflexivity. Qed.

(** From 5000 primes a second on the bar is full. *)
Lemma speed_bar_full (speed : Z) :
  5000 <= speed < 2 ^ 1024 -> speed_bar_len speed = Some 30.
Proof.
intros Hs. unfold speed_bar_len.
destruct (Z.eqb_spec speed 0); [lia|].
rewrite float_of_thirty. unfold int_truediv.
destruct speed as [|p|p]; try lia.
change (Z.abs (Z.pos p)) with (Z.pos p). change (Z.abs 5000) with 5000.
change (xorb (Z.pos p <? 0) (5000 <? 0)) with false.
destruct (div_core_5000 (Z.pos p) ltac:(lia)) as (q & e & l & -> & He & Hq & Hqe & Hqa).
assert (0 < 2 ^ (- e)) as Hp by (apply Z.pow_pos_nonneg; lia).
pose proof (Zdigits2_bounds q ltac:(lia)) as Hb.
assert (0 < Zdigits2 q) as Hd0 by (destruct q; simpl; lia).
(* the exponent of the quotient lies between -52 and 960 *)
assert (- e < Zdigits2 q) as Hlow by (apply (Z.pow_lt_mono_r_iff 2); lia).
assert (Zdigits2 q - 1 < 1012 + - e) as Hhigh.
{ apply (Z.pow_lt_mono_r_iff 2); [lia | lia |].
  rewrite Z.pow_add_r by lia.
  change (2 ^ 1012) with (2 ^ 1024 / 4096).
  assert (2 ^ 1024 = 2 ^ 1024 / 4096 * 4096) as H4096 by reflexivity.
  nia. }
destruct (binary_round_aux_range false q e l Hq ltac:(lia))
  as (m & e1 & Hm & He1 & ->).
destruct (Z.leb_spec e1 971); [|lia].
(* the product with 30.0 *)
unfold float_mul, SFmul. cbn [xorb].
rewrite Pos2Z.inj_mul, Z2Pos.id by lia.
assert (105 <= Zdigits2 (m * 8444249301319680) <= 106) as Hpd.
{ split.
  - change 105 with (Zdigits2 (2 ^ 104)). apply Zdigits2_mono. lia.
  - pose proof (Zdigits2_bounds (m * 8444249301319680) ltac:(lia)) as Hb'.
    assert (m * 8444249301319680 < 2 ^ 106) by lia.
    assert (Zdigits2 (m * 8444249301319680) - 1 < 106); [|lia].
    apply (Z.pow_lt_mono_r_iff 2); lia. }
rewrite binary_round_aux_spec by lia.
remember (rnd53 (m * 8444249301319680) (e1 + -48)) as P eqn:EP.
assert (canon P) as Hc by (rewrite EP; apply rnd53_canon; lia).
assert (pair_le (8444249301319680, -48) P) as Hle.
{ assert (rnd53 (2 ^ 52 * 8444249301319680) (-100) = (8444249301319680, -48)) as <-
    by (vm_compute; reflexivity).
  rewrite EP. set (k := e1 + 52).
  assert (0 <= k) as Hk by (unfold k; lia).
  assert (0 < 2 ^ k) by (apply Z.pow_pos_nonneg; lia).
  rewrite <- (rnd53_shift (m * 8444249301319680) (e1 + -48) k); [|lia..].
  replace (e1 + -48 - k) with (-100) by (unfold k; lia).
  apply rnd53_mono; [nia|].
  change (Zdigits2 (2 ^ 52 * 8444249301319680)) with 105. lia. }
destruct (rnd53_snd (m * 8444249301319680) (e1 + -48)) as [Hsnd _]; [lia | lia|].
rewrite <- EP in Hsnd.
unfold canon in Hc. unfold pack.
destruct (fst P) as [|mp|mp] eqn:Ef; try lia.
destruct (Z.leb_spec (snd P) 971); [|lia].
unfold int_of_float. f_equal. unfold max_visual_len.
assert (30 <= floor_pair P) as Hfl.
{ change 30 with (floor_pair (8444249301319680, -48)).
  apply floor_pair_mono; [unfold canon; cbn [fst]; lia | unfold canon; lia | exact Hle]. }
unfold floor_pair in Hfl. rewrite Ef in Hfl. lia.
Qed.

(** Below 5000 the bar has [30 * speed / 5000] cells: by computation. *)
Lemma bar_exact_upto_spec (k : nat) :
  bar_exact_upto k = true ->
  forall speed, 0 < speed <= Z.of_nat k ->
  speed_bar_len speed = Some (30 * speed / 5000).
Proof.
induction k as [|k IH]; intros Hk speed Hs; [lia|].
cbn [bar_exact_upto] in Hk.
destruct (speed_bar_len (Z.of_nat (S k))) as [len|] eqn:El; [|discriminate].
apply andb_true_iff in Hk. destruct Hk as [Hlen Hrest].
destruct (Z.eq_dec speed (Z.of_nat (S k))) as [->|Hne].
- rewrite El. f_equal. apply Z.eqb_eq, Hlen.
- apply IH; [exact Hrest | lia].
Qed.

Lemma bar_exact_below_5000 : bar_exact_upto 4999 = true.
Proof. vm_compute. reflexivity. Qed.

End SpeedBar.

(** X12: the speed bar of the dashboard has [30 * speed / 5000] cells for
    a speed below 5000 and is full, with 30 cells, from 5000 on; whatever
    the speed it never has more than 30 cells, and the growth bar under it
    has half as many. *)
Theorem speed_bar_cells (speed : Z) :
  (forall speed_vis growth_vis,
     speed_bars speed = Some (speed_vis, growth_vis) ->
     (length speed_vis <= 30)%nat /\
     length growth_vis = (length speed_vis / 2)%nat) /\
  (0 <= speed < 5000 -> speed_bar_len speed = Some (30 * speed / 5000)) /\
  (5000 <= speed < 2 ^ 1024 ->
   speed_bar_len speed = Some 30 /\
   speed_bars speed = Some (repeat 9608 30, repeat 9608 15)).
Proof.
split; [|split].
- intros sv gv. unfold speed_bars.
  destruct (speed_bar_len speed) as [len|] eqn:El; [|discriminate].
  intros [= <- <-]. rewrite !str_mul_length.
  assert (len <= 30) as Hlen.
  { unfold speed_bar_len in El. destruct (speed =? 0); [injection El as <-; lia|].
    destruct (int_truediv speed 5000); [|discriminate].
    destruct (float_of_int max_visual_len); [|discriminate].
    destruct (int_of_float _); [|discriminate].
    injection El as <-. unfold max_visual_len. lia. }
  split; [lia|].
  destruct (Z_lt_le_dec len 0) as [Hneg|Hpos].
  + assert (len / 2 < 0) by (apply Z.div_lt_upper_bound; lia).
    replace (Z.to_nat len) with 0%nat by lia.
    replace (Z.to_nat (len / 2)) with 0%nat by lia. reflexivity.
  + rewrite Z2Nat.inj_div by lia. reflexivity.
- intros Hs. destruct (Z.eq_dec speed 0) as [->|Hne]; [reflexivity|].
  apply (bar_exact_upto_spec 4999 bar_exact_below_5000). lia.
- intros Hs. pose proof (speed_bar_full speed Hs) as Hfull.
  split; [exact Hfull|]. unfold speed_bars. rewrite Hfull. reflexivity.
Qed.

(** X13: a slice tests one candidate for each reading of the clock that is
    less than 0.2 s after its start, and ends at the first reading that is
    not, leaving the later readings unread: its counters are then those of
    the candidates tested. *)
Theorem time_slice_follows_clock
    (stride : Z) (start_time : float) (early : list float) (late : float)
    (rest : list float) (st : slice_state) (tested : list Z) (cursor : Z) :
  Forall (fun now => SFltb (float_sub now start_time) slice_seconds = true) early ->
  SFltb (float_sub late start_time) slice_seconds = false ->
  candidates stride (current_num st) (length early) = Some (tested, cursor) ->
  time_slice stride start_time (early ++ late :: rest) st
  = Done ({| current_num := cursor;
             count := count st + Z.of_nat (length (filter is_prime tested));
             max_found := last (filter is_prime tested) (max_found st) |},
          rest).
Proof.
intros Hearly Hlate. revert st tested.
induction Hearly as [|now early Hnow _ IH]; intros st tested Hc.
- cbn [length candidates] in Hc. injection Hc as <- <-.
  cbn [app time_slice]. rewrite Hlate. cbn [filter length last].
  rewrite Z.add_0_r. destruct st; reflexivity.
- cbn [length candidates] in Hc.
  destruct (advance stride (current_num st)) as [next|] eqn:Ha; [|discriminate].
  destruct (candidates stride next (length early)) as [[l c]|] eqn:Ec; [|discriminate].
  injection Hc as <- <-.
  cbn [app time_slice]. rewrite Hnow, test_candidate_cursor, Ha.
  rewrite (IH _ l) by exact Ec.
  unfold test_candidate. cbn [filter].
  destruct (is_prime (current_num st)); cbn [current_num count max_found length];
    rewrite ?last_cons; do 2 f_equal; f_equal; lia.
Qed.

(* ================================================================== *)
(** * Part V: the further properties at concrete inputs *)
(* ================================================================== *)

(** 97 is prime: four divisions, by 3, 5, 7 and 9.  91 = 7 * 13 stops at 7,
    after three. *)
Lemma is_prime_steps_bound_witness :
  Z.of_nat (is_prime_steps 97) = (Z.sqrt 97 - 1) / 2 /\
  exists d, 3 <= d <= Z.sqrt 91 /\ (d | 91) /\
    (forall d', 1 < d' < d -> ~ (d' | 91)) /\
    Z.of_nat (is_prime_steps 91) = (d - 1) / 2.
Proof.
split.
- apply (proj1 (proj2 (is_prime_steps_bound 97))); [lia | reflexivity].
- apply (proj2 (proj2 (is_prime_steps_bound 91))); [lia | reflexivity | reflexivity].
Defined.

Lemma advance_overflow_threshold_witness :
  advance 1 (2 ^ 1024 - 2 ^ 970) = None.
Proof.
apply (proj1 (advance_overflow_threshold 1 (2 ^ 1024 - 2 ^ 970)
               ltac:(reflexivity) ltac:(lia))).
apply Z.le_refl.
Defined.

(** Across 20000000 the step of a pool of one goes from 1 to 2. *)
Lemma effective_stride_grows_witness :
  1 <= 20000000 - 19999999 <= 20000002 - 20000000.
Proof.
apply (effective_stride_grows 1 19999999 0 19999999 20000000 20000002);
  [lia | lia | reflexivity | vm_compute; reflexivity | vm_compute; reflexivity].
Defined.

Lemma pool_covers_witness :
  exists w n,
    In w (start_workers 4) /\
    nth_candidate (snd w) (100 + fst w) n = Some 113 /\
    forall w' n',
      In w' (start_workers 4) ->
      nth_candidate (snd w') (100 + fst w') n' = Some 113 -> w' = w /\ n' = n.
Proof.
apply (pool_covers 4 113); lia.
Defined.

Lemma first_gap_never_tested_witness :
  nth_candidate (snd (0, 1)) (100 + fst (0, 1)) 5 <> Some (20000000 + 1).
Proof.
apply (first_gap_never_tested 1 (0, 1) 5); [lia | vm_compute; left; reflexivity].
Defined.

(** Worker 1 of a pool of three tests 101, 104 and 107 in its one slice and
    then reads the flag as set: one report, of two primes. *)
Lemma worker_reports_account_witness :
  worker_process 1 3 [false; true]
    [S754_zero false; S754_zero false; S754_zero false; S754_zero false;
     one_second]
  = (Returned, [Report.mk 1 2 107]) /\
  sum_counts (flat_map (BatchReport_spec 1) [[101; 104; 107]])
  = Z.of_nat (length (filter is_prime (concat [[101; 104; 107]]))).
Proof.
pose proof (worker_reports_account 1 3
              [{| at_start := S754_zero false;
                  within := [S754_zero false; S754_zero false; S754_zero false];
                  past := one_second |}]
              [[101; 104; 107]] 110 [true] []
              ltac:(lia) ltac:(lia) ltac:(repeat constructor)
              ltac:(repeat constructor) ltac:(vm_compute; reflexivity)
              ltac:(exact I)) as (Hq & Hst & Hsum & _).
split; [|exact Hsum].
apply injective_projections; [apply Hst; eauto | exact Hq].
Defined.

Lemma reports_of_distinct_workers_witness :
  Report.highest (Report.mk 0 1 103) <> Report.highest (Report.mk 1 2 107).
Proof.
apply (reports_of_distinct_workers 3 0 1 [false; true] [false; true]
         [S754_zero false; S754_zero false; S754_zero false; S754_zero false;
          one_second]
         [S754_zero false; S754_zero false; S754_zero false; S754_zero false;
          one_second]
         Returned Returned [Report.mk 0 1 103] [Report.mk 1 2 107]);
  [lia | lia | lia | lia | vm_compute; reflexivity | vm_compute; reflexivity
  | left; reflexivity | left; reflexivity].
Defined.

Lemma displayed_highest_is_prime_witness :
  is_prime (Stats.highest (drain (initial_stats 3)
                             [Report.mk 0 1 103; Report.mk 1 2 107])) = true.
Proof.
apply (proj2 (displayed_highest_is_prime 3 [Report.mk 0 1 103; Report.mk 1 2 107]
               ltac:(repeat constructor;
                     [exists 0 | exists 1]; repeat split; vm_compute; reflexivity))).
discriminate.
Defined.

(** A pool of three, each worker running one slice of three candidates and
    then reading the flag as set: 100 to 108 are tested, each once, with the
    primes 101, 103 and 107. *)
Lemma pool_total_counts_distinct_primes_witness :
  NoDup (flat_map (fun w : Z * Z => concat [[100 + fst w; 103 + fst w; 106 + fst w]])
           (start_workers 3)) /\
  Stats.total (drain (initial_stats 3) [Report.mk 1 2 107; Report.mk 0 1 103])
  = Z.of_nat (length (filter is_prime
                        (flat_map (fun w : Z * Z =>
                                     concat [[100 + fst w; 103 + fst w; 106 + fst w]])
                           (start_workers 3)))).
Proof.
apply (pool_total_counts_distinct_primes 3
         (fun _ => ([false; true],
                    [S754_zero false; S754_zero false; S754_zero false;
                     S754_zero false; one_second]))
         (fun _ => [{| at_start := S754_zero false;
                       within := [S754_zero false; S754_zero false; S754_zero false];
                       past := one_second |}])
         (fun i => [[100 + i; 103 + i; 106 + i]]));
  [lia | | vm_compute; apply perm_swap].
intros i Hi. split; [|split; [|split]].
- constructor; [|constructor]. split; [repeat constructor | reflexivity].
- repeat constructor.
- exists (109 + i).
  assert (i = 0 \/ i = 1 \/ i = 2) as [-> | [-> | ->]] by lia;
    vm_compute; reflexivity.
- exists [true], []. split; [exact I | reflexivity].
Defined.

(** Two primes arrive 0.2 s after the start, five more when a second has
    passed: the speed is then seven. *)
Lemma speed_counts_window_witness :
  Stats.speed (stats (run_ticks (initial_state 4 (S754_zero false))
                        ([([Report.mk 0 2 103], slice_seconds)]
                         ++ [([Report.mk 1 5 131], one_second)])))
  = sum_counts (concat (map fst ([([Report.mk 0 2 103], slice_seconds)]
                                 ++ [([Report.mk 1 5 131], one_second)]))).
Proof.
apply (proj1 (speed_counts_window (initial_state 4 (S754_zero false))
                [([Report.mk 0 2 103], slice_seconds)]
                ([Report.mk 1 5 131], one_second)
                ltac:(reflexivity)
                ltac:(repeat constructor)
                ltac:(reflexivity))).
Defined.

Lemma main_loop_invariants_witness :
  status_text (Stats.running (stats (run_ticks (initial_state 4 (S754_zero false))
                                       [([Report.mk 0 2 103], slice_seconds);
                                        ([Report.mk 1 5 131], one_second)])))
  = "RUNNING"%string.
Proof.
apply (proj1 (proj2 (proj2 (main_loop_invariants 4 (S754_zero false)
                              [([Report.mk 0 2 103], slice_seconds);
                               ([Report.mk 1 5 131], one_second)]
                              ltac:(repeat constructor; cbn; lia))))).
Defined.

(** 1000 primes a second fill 6 cells of 30; 12000 fill them all. *)
Lemma speed_bar_cells_witness :
  speed_bar_len 1000 = Some (30 * 1000 / 5000) /\
  speed_bars 12000 = Some (repeat 9608 30, repeat 9608 15).
Proof.
split.
- apply (proj1 (proj2 (speed_bar_cells 1000))). lia.
- apply (proj2 (proj2 (speed_bar_cells 12000))). split; [lia | reflexivity].
Defined.

Lemma time_slice_follows_clock_witness :
  time_slice 1 (S754_zero false)
    ([S754_zero false; S754_zero false; S754_zero false] ++ one_second :: [])
    {| current_num := 100; count := 0; max_found := 0 |}
  = Done ({| current_num := 103;
             count := 0 + Z.of_nat (length (filter is_prime [100; 101; 102]));
             max_found := last (filter is_prime [100; 101; 102]) 0 |},
          []).
Proof.
apply (time_slice_follows_clock 1 (S754_zero false)
         [S754_zero false; S754_zero false; S754_zero false] one_second []
         {| current_num := 100; count := 0; max_found := 0 |}
         [100; 101; 102] 103);
  [repeat constructor | reflexivity | vm_compute; reflexivity].
Defined.
